(** * Job planner: the record services and the analytics service

    A shallow embedding of [job-planner.py].  The handlers are written in a
    small state-and-exception monad over a model of the storage layer: the
    database file, the connections opened on it, and the statements the
    handlers execute.

    Modelling conventions.
    - Python [int] and SQLite [INTEGER] are [Z]; [str] and [TEXT] are
      [string]; [Optional[T]] and a nullable column are [option].  The
      driver's refusal of values without an SQLite representation (an
      integer outside 64 bits, text that cannot be encoded) is outside the
      model; so is the exhaustion of the 64-bit rowid space.
    - A [datetime] is identified with the ISO-8601 text the driver stores
      for it in a [TIMESTAMP] column.
    - A table is the list of its rows in storage order.  The schema of
      [init_db] is the shape of the row records below; [id INTEGER PRIMARY
      KEY] makes [id] the rowid, which the engine assigns on insertion.
    - The handlers are coroutines without an [await]: each runs to its end
      before the next one starts, so a request is one function on the world.
    - The driver is modelled where it does not fail: [execute] takes the
      parameters as they are and finds the file free.  The program differs
      from it in two situations, which the statements about writes exclude by
      hypothesis.  A connection left open after an UPDATE or INSERT keeps the
      write lock of the file, and a later write on another connection raises
      (database is locked): such statements assume that no connection is open
      ([conns w = ∅]).  An integer outside the signed 64-bit range cannot be
      bound as a parameter (OverflowError): such statements assume [int64] of
      the integers they bind.  Reads are not held up by the lock.  A
      connection is released by [close] only. *)

From stdpp Require Import gmap strings list fin_maps.

Definition datetime : Type := string.

(** ** Data models (the pydantic classes) *)

Module JobApplication.
Record t : Type := mk {
  id : option Z;
  company : string;
  position : string;
  status : string;
  date_applied : datetime;
  url : option string;
  notes : option string }.

Definition set_id (a : t) (i : option Z) : t :=
  mk i (company a) (position a) (status a) (date_applied a) (url a) (notes a).
End JobApplication.

Module Task.
Record t : Type := mk {
  id : option Z;
  title : string;
  due_date : datetime;
  completed : bool;
  job_application_id : option Z }.

Definition set_id (a : t) (i : option Z) : t :=
  mk i (title a) (due_date a) (completed a) (job_application_id a).

End Task.

Module Contact.
Record t : Type := mk {
  id : option Z;
  name : string;
  company : string;
  email : option string;
  phone : option string;
  notes : option string }.

Definition set_id (a : t) (i : option Z) : t :=
  mk i (name a) (company a) (email a) (phone a) (notes a).
End Contact.

Module Document.
Record t : Type := mk {
  id : option Z;
  title : string;
  type : string;
  version : string;
  last_updated : datetime;
  file_path : string }.

Definition set_id (a : t) (i : option Z) : t :=
  mk i (title a) (type a) (version a) (last_updated a) (file_path a).
End Document.

(** ** Storage layer: rows, tables, statements *)

Module JobApplicationsRow.
Record t : Type := mk {
  id : Z;
  company : string;
  position : string;
  status : string;
  date_applied : datetime;
  url : option string;
  notes : option string }.
End JobApplicationsRow.

Module TasksRow.
(** [completed BOOLEAN]: the engine has no boolean type, the column holds the
    integer the driver binds for a [bool], 0 or 1. *)
Record t : Type := mk {
  id : Z;
  title : string;
  due_date : datetime;
  completed : Z;
  job_application_id : option Z }.

Definition set_completed (r : t) (c : Z) : t :=
  mk (id r) (title r) (due_date r) c (job_application_id r).
End TasksRow.

Module ContactsRow.
Record t : Type := mk {
  id : Z;
  name : string;
  company : string;
  email : option string;
  phone : option string;
  notes : option string }.
End ContactsRow.

Module DocumentsRow.
Record t : Type := mk {
  id : Z;
  title : string;
  type : string;
  version : string;
  last_updated : datetime;
  file_path : string }.
End DocumentsRow.

Record database : Type := mkDatabase {
  job_applications : list JobApplicationsRow.t;
  tasks : list TasksRow.t;
  contacts : list ContactsRow.t;
  documents : list DocumentsRow.t }.

Definition empty_database : database := mkDatabase [] [] [] [].

Definition set_job_applications (d : database) (l : list JobApplicationsRow.t) : database :=
  mkDatabase l (tasks d) (contacts d) (documents d).
Definition set_tasks (d : database) (l : list TasksRow.t) : database :=
  mkDatabase (job_applications d) l (contacts d) (documents d).
Definition set_contacts (d : database) (l : list ContactsRow.t) : database :=
  mkDatabase (job_applications d) (tasks d) l (documents d).
Definition set_documents (d : database) (l : list DocumentsRow.t) : database :=
  mkDatabase (job_applications d) (tasks d) (contacts d) l.

Inductive exn : Type :=
  | HTTPException (status_code : Z) (detail : string)
  | IntegrityError (msg : string)
  | ProgrammingError (msg : string).

(** The rowid given to a row inserted without one: 1 in an empty table, else
    one more than the largest rowid in use. *)
Definition new_rowid (ids : list Z) : Z :=
  match ids with
  | [] => 1
  | i :: rest => foldr Z.max i rest + 1
  end%Z.

(** The driver stores [True] as 1 and [False] as 0. *)
Definition adapt_bool (b : bool) : Z := if b then 1%Z else 0%Z.

(** A statement runs on the connection's view of the database, under the
    connection's [foreign_keys] setting; it fails or gives the new view and
    what the cursor holds afterwards. *)
Definition statement (A : Type) : Type := bool → database → exn + database * A.

(** INSERT INTO job_applications (company, position, status, date_applied,
    url, notes) VALUES (?, ?, ?, ?, ?, ?); the cursor holds [lastrowid]. *)
Definition insert_job_application (company position status : string)
    (date_applied : datetime) (url notes : option string) : statement Z :=
  λ _ d,
    let i := new_rowid (JobApplicationsRow.id <$> job_applications d) in
    inr (set_job_applications d
           (job_applications d ++
              [JobApplicationsRow.mk i company position status date_applied url notes]),
         i).

(** SELECT * FROM job_applications; the cursor holds the rows. *)
Definition select_job_applications : statement (list JobApplicationsRow.t) :=
  λ _ d, inr (d, job_applications d).

(** INSERT INTO tasks (title, due_date, completed, job_application_id)
    VALUES (?, ?, ?, ?).  The reference to [job_applications (id)] is
    checked only on a connection whose [foreign_keys] setting is on. *)
Definition insert_task (title : string) (due_date : datetime) (completed : Z)
    (job_application_id : option Z) : statement Z :=
  λ foreign_keys d,
    let dangling :=
      match job_application_id with
      | Some j => bool_decide (j ∉ JobApplicationsRow.id <$> job_applications d)
      | None => false
      end in
    if foreign_keys && dangling
    then inl (IntegrityError "FOREIGN KEY constraint failed")
    else
      let i := new_rowid (TasksRow.id <$> tasks d) in
      inr (set_tasks d
             (tasks d ++ [TasksRow.mk i title due_date completed job_application_id]),
           i).

(** UPDATE tasks SET completed = 1 WHERE id = ?; the cursor holds
    [rowcount], the number of rows the WHERE clause selected. *)
Definition update_task_completed (task_id : Z) : statement nat :=
  λ _ d,
    inr (set_tasks d
           ((λ r, if decide (TasksRow.id r = task_id)
                  then TasksRow.set_completed r 1 else r) <$> tasks d),
         length (filter (λ r, TasksRow.id r = task_id) (tasks d))).

(** INSERT INTO contacts (name, company, email, phone, notes) VALUES ... *)
Definition insert_contact (name company : string) (email phone notes : option string)
    : statement Z :=
  λ _ d,
    let i := new_rowid (ContactsRow.id <$> contacts d) in
    inr (set_contacts d
           (contacts d ++ [ContactsRow.mk i name company email phone notes]),
         i).

(** INSERT INTO documents (title, type, version, last_updated, file_path)
    VALUES ... *)
Definition insert_document (title type version : string) (last_updated : datetime)
    (file_path : string) : statement Z :=
  λ _ d,
    let i := new_rowid (DocumentsRow.id <$> documents d) in
    inr (set_documents d
           (documents d ++ [DocumentsRow.mk i title type version last_updated file_path]),
         i).

(** SELECT status, COUNT( * ) FROM job_applications GROUP BY status: one row
    for each distinct status, with the number of rows of its group.  SQL
    leaves the order of the groups open; here it is that of first
    occurrence. *)
Definition count_status (s : string) (rows : list JobApplicationsRow.t) : nat :=
  length (filter (λ r, JobApplicationsRow.status r = s) rows).

Definition select_status_counts : statement (list (string * nat)) :=
  λ _ d,
    let rows := job_applications d in
    inr (d, (λ s, (s, count_status s rows))
              <$> remove_dups (JobApplicationsRow.status <$> rows)).

(** ** Connections and the handler monad *)

Record connection : Type := mkConnection {
  view : database;          (* the file plus this connection's own writes *)
  foreign_keys : bool }.    (* PRAGMA foreign_keys, off unless switched on *)

Record world : Type := mkWorld {
  disk : database;                 (* the committed content of job_planner.db *)
  conns : gmap nat connection;     (* the connections that are open *)
  next_conn : nat }.               (* the next connection handle *)

Definition empty_world : world := mkWorld empty_database ∅ 0.

Definition io (A : Type) : Type := world → (exn + A) * world.

Global Instance io_ret : MRet io := λ A a w, (inr a, w).
Global Instance io_bind : MBind io := λ A B f m w,
  match m w with
  | (inl e, w') => (inl e, w')
  | (inr a, w') => f a w'
  end.

Definition raise {A : Type} (e : exn) : io A := λ w, (inl e, w).

Definition closed_error : exn :=
  ProgrammingError "Cannot operate on a closed database.".

(** [sqlite3.connect('job_planner.db')] *)
Definition sqlite3_connect : io nat := λ w,
  let h := next_conn w in
  (inr h, mkWorld (disk w) (<[h := mkConnection (disk w) false]> (conns w)) (S h)).

(** [conn.cursor()]: the cursor is identified with its connection. *)
Definition cursor (conn : nat) : io nat := mret conn.

(** [cur.execute(...)], for parameters the driver can bind, on a file that no
    other connection has locked. *)
Definition execute {A : Type} (cur : nat) (s : statement A) : io A := λ w,
  match conns w !! cur with
  | None => (inl closed_error, w)
  | Some c =>
      match s (foreign_keys c) (view c) with
      | inl e => (inl e, w)
      | inr (d, a) =>
          (inr a, mkWorld (disk w)
                    (<[cur := mkConnection d (foreign_keys c)]> (conns w))
                    (next_conn w))
      end
  end.

(** [conn.commit()] *)
Definition commit (conn : nat) : io unit := λ w,
  match conns w !! conn with
  | None => (inl closed_error, w)
  | Some c => (inr tt, mkWorld (view c) (conns w) (next_conn w))
  end.

(** [conn.close()]: what was not committed is dropped with the connection. *)
Definition close (conn : nat) : io unit := λ w,
  (inr tt, mkWorld (disk w) (delete conn (conns w)) (next_conn w)).

(** ** The handlers *)

Definition create_application (application : JobApplication.t) : io JobApplication.t :=
  conn ← sqlite3_connect;
  cur ← cursor conn;
  lastrowid ← execute cur
    (insert_job_application
       (JobApplication.company application) (JobApplication.position application)
       (JobApplication.status application) (JobApplication.date_applied application)
       (JobApplication.url application) (JobApplication.notes application));
  let application := JobApplication.set_id application (Some lastrowid) in
  commit conn;;
  close conn;;
  mret application.

Definition get_applications : io (list JobApplication.t) :=
  conn ← sqlite3_connect;
  cur ← cursor conn;
  rows ← execute cur select_job_applications;
  let applications :=
    foldl (λ applications row,
             applications ++
               [JobApplication.mk
                  (Some (JobApplicationsRow.id row))
                  (JobApplicationsRow.company row)
                  (JobApplicationsRow.position row)
                  (JobApplicationsRow.status row)
                  (JobApplicationsRow.date_applied row)
                  (JobApplicationsRow.url row)
                  (JobApplicationsRow.notes row)])
          [] rows in
  close conn;;
  mret applications.

Definition create_task (task : Task.t) : io Task.t :=
  conn ← sqlite3_connect;
  cur ← cursor conn;
  lastrowid ← execute cur
    (insert_task (Task.title task) (Task.due_date task)
       (adapt_bool (Task.completed task)) (Task.job_application_id task));
  let task := Task.set_id task (Some lastrowid) in
  commit conn;;
  close conn;;
  mret task.

Definition complete_task (task_id : Z) : io (gmap string string) :=
  conn ← sqlite3_connect;
  cur ← cursor conn;
  rowcount ← execute cur (update_task_completed task_id);
  if decide (rowcount = 0)
  then raise (HTTPException 404 "Task not found")
  else
    commit conn;;
    close conn;;
    mret {[ "message" := "Task marked as completed" ]}.

Definition create_contact (contact : Contact.t) : io Contact.t :=
  conn ← sqlite3_connect;
  cur ← cursor conn;
  lastrowid ← execute cur
    (insert_contact (Contact.name contact) (Contact.company contact)
       (Contact.email contact) (Contact.phone contact) (Contact.notes contact));
  let contact := Contact.set_id contact (Some lastrowid) in
  commit conn;;
  close conn;;
  mret contact.

Definition create_document (document : Document.t) : io Document.t :=
  conn ← sqlite3_connect;
  cur ← cursor conn;
  lastrowid ← execute cur
    (insert_document (Document.title document) (Document.type document)
       (Document.version document) (Document.last_updated document)
       (Document.file_path document));
  let document := Document.set_id document (Some lastrowid) in
  commit conn;;
  close conn;;
  mret document.

Definition get_application_stats : io (gmap string nat) :=
  conn ← sqlite3_connect;
  cur ← cursor conn;
  rows ← execute cur select_status_counts;
  let stats := foldl (λ stats row, <[row.1 := row.2]> stats) (∅ : gmap string nat) rows in
  close conn;;
  mret stats.

(** ** Requests served one after the other *)

Inductive request : Type :=
  | PostApplications (application : JobApplication.t)
  | GetApplications
  | PostTasks (task : Task.t)
  | PutTaskComplete (task_id : Z)
  | PostContacts (contact : Contact.t)
  | PostDocuments (document : Document.t)
  | GetApplicationStatus.

(** The world after a request; the response has gone to the client. *)
Definition serve (w : world) (rq : request) : world :=
  match rq with
  | PostApplications application => (create_application application w).2
  | GetApplications => (get_applications w).2
  | PostTasks task => (create_task task w).2
  | PutTaskComplete task_id => (complete_task task_id w).2
  | PostContacts contact => (create_contact contact w).2
  | PostDocuments document => (create_document document w).2
  | GetApplicationStatus => (get_application_stats w).2
  end.

Definition serve_all (w : world) (rqs : list request) : world := foldl serve w rqs.

(** The row the list endpoint builds a record from, and back. *)
Definition record_of_row (row : JobApplicationsRow.t) : JobApplication.t :=
  JobApplication.mk
    (Some (JobApplicationsRow.id row)) (JobApplicationsRow.company row)
    (JobApplicationsRow.position row) (JobApplicationsRow.status row)
    (JobApplicationsRow.date_applied row) (JobApplicationsRow.url row)
    (JobApplicationsRow.notes row).

Definition row_of_application (i : Z) (a : JobApplication.t) : JobApplicationsRow.t :=
  JobApplicationsRow.mk i
    (JobApplication.company a) (JobApplication.position a) (JobApplication.status a)
    (JobApplication.date_applied a) (JobApplication.url a) (JobApplication.notes a).

Definition row_of_task (i : Z) (t : Task.t) : TasksRow.t :=
  TasksRow.mk i (Task.title t) (Task.due_date t) (adapt_bool (Task.completed t))
    (Task.job_application_id t).

Definition complete_row (task_id : Z) (r : TasksRow.t) : TasksRow.t :=
  if decide (TasksRow.id r = task_id) then TasksRow.set_completed r 1 else r.

Definition matching (task_id : Z) (rows : list TasksRow.t) : nat :=
  length (filter (λ r, TasksRow.id r = task_id) rows).

Definition not_found : exn := HTTPException 404 "Task not found".

(** The sum of the counts of a status mapping. *)
Definition total (stats : gmap string nat) : nat :=
  map_fold (λ _ n acc, n + acc) 0 stats.

(** The mapping with the four expected statuses, a status without
    application left out. *)
Definition put_count (s : string) (n : nat) (stats : gmap string nat) : gmap string nat :=
  if decide (n = 0) then stats else <[s := n]> stats.

Definition status_mapping (a b c d : nat) : gmap string nat :=
  put_count "Applied" a (put_count "Interview" b
    (put_count "Offer" c (put_count "Rejected" d ∅))).

(** ** Derived notions used in the statements *)

(** The groups of the GROUP BY query and the loop
    [for row in cur.fetchall(): stats[row[0]] = row[1]] over them. *)
Definition status_groups (rows : list JobApplicationsRow.t) : list (string * nat) :=
  (λ s, (s, count_status s rows)) <$> remove_dups (JobApplicationsRow.status <$> rows).

Definition fill_stats (stats : gmap string nat) (groups : list (string * nat))
    : gmap string nat :=
  foldl (λ stats row, <[row.1 := row.2]> stats) stats groups.

Definition build_stats (groups : list (string * nat)) : gmap string nat :=
  fill_stats ∅ groups.

Definition completed_message : gmap string string :=
  {[ "message" := "Task marked as completed" ]}.

(** The rowids of a table filled by insertion only: 1, 2, ..., n. *)
Definition rowids (n : nat) : list Z := Z.of_nat <$> seq 1 n.

Definition assigned_ids {A : Type} (id : A → Z) (rows : list A) : Prop :=
  id <$> rows = rowids (length rows).

(** Every table holds the identities the engine gives out: 1, 2, ..., n in
    the order of insertion. *)
Definition identities_assigned (d : database) : Prop :=
  assigned_ids JobApplicationsRow.id (job_applications d) ∧
  assigned_ids TasksRow.id (tasks d) ∧
  assigned_ids ContactsRow.id (contacts d) ∧
  assigned_ids DocumentsRow.id (documents d).

Definition identities_unique (d : database) : Prop :=
  NoDup (JobApplicationsRow.id <$> job_applications d) ∧
  NoDup (TasksRow.id <$> tasks d) ∧
  NoDup (ContactsRow.id <$> contacts d) ∧
  NoDup (DocumentsRow.id <$> documents d).

(** The rows of [d] are still in [d'], each in its slot and with its
    identity. *)
Definition identities_kept (d d' : database) : Prop :=
  (JobApplicationsRow.id <$> job_applications d)
    `prefix_of` (JobApplicationsRow.id <$> job_applications d') ∧
  (TasksRow.id <$> tasks d) `prefix_of` (TasksRow.id <$> tasks d') ∧
  (ContactsRow.id <$> contacts d) `prefix_of` (ContactsRow.id <$> contacts d') ∧
  (DocumentsRow.id <$> documents d) `prefix_of` (DocumentsRow.id <$> documents d').

(** ** Notions used for whole runs of requests *)

(** The applications a run of requests posted, in the order of the requests. *)
Definition posted_applications (rqs : list request) : list JobApplication.t :=
  omap (λ rq, match rq with PostApplications a => Some a | _ => None end) rqs.

(** The records of a fresh store's list endpoint for these applications: the
    k-th one (from 0) carries the identity k + 1. *)
Definition numbered (apps : list JobApplication.t) : list JobApplication.t :=
  imap (λ k a, JobApplication.set_id a (Some (Z.of_nat (S k)))) apps.

(** Whether the handler of a request raises when run on [w]. *)
Definition raises (w : world) (rq : request) : bool :=
  match rq with
  | PostApplications application =>
      match (create_application application w).1 with inl _ => true | inr _ => false end
  | GetApplications =>
      match (get_applications w).1 with inl _ => true | inr _ => false end
  | PostTasks task =>
      match (create_task task w).1 with inl _ => true | inr _ => false end
  | PutTaskComplete task_id =>
      match (complete_task task_id w).1 with inl _ => true | inr _ => false end
  | PostContacts contact =>
      match (create_contact contact w).1 with inl _ => true | inr _ => false end
  | PostDocuments document =>
      match (create_document document w).1 with inl _ => true | inr _ => false end
  | GetApplicationStatus =>
      match (get_application_stats w).1 with inl _ => true | inr _ => false end
  end.

(** The number of requests of a run that raise, each run on the world its
    predecessors left. *)
Fixpoint raised (w : world) (rqs : list request) : nat :=
  match rqs with
  | [] => 0
  | rq :: rqs => (if raises w rq then 1 else 0) + raised (serve w rq) rqs
  end.

(** A row of [tasks] and what it may be later: the same but for [completed],
    which is as it was or 1. *)
Definition task_row_later (r r' : TasksRow.t) : Prop :=
  TasksRow.id r' = TasksRow.id r ∧
  TasksRow.title r' = TasksRow.title r ∧
  TasksRow.due_date r' = TasksRow.due_date r ∧
  TasksRow.job_application_id r' = TasksRow.job_application_id r ∧
  (TasksRow.completed r' = TasksRow.completed r ∨ TasksRow.completed r' = 1%Z).

(** ** Where the model of the driver is exact *)

(** The integers the driver binds as parameters of a statement: signed, 64
    bits. *)
Definition int64 (z : Z) : Prop := (- 2 ^ 63 ≤ z < 2 ^ 63)%Z.

Definition int64_or_null (o : option Z) : Prop :=
  match o with
  | Some z => int64 z
  | None => True
  end.

(** The integers a request binds are in range: the [task_id] of the UPDATE
    and the [job_application_id] of the INSERT into [tasks]. *)
Definition bindable (rq : request) : Prop :=
  match rq with
  | PutTaskComplete task_id => int64 task_id
  | PostTasks task => int64_or_null (Task.job_application_id task)
  | _ => True
  end.

(** ** Sample data *)

Definition one_task : TasksRow.t := TasksRow.mk 1 "Send resume" "2024-05-01 09:00:00" 0 None.
Definition one_task_world : world :=
  mkWorld (set_tasks empty_database [one_task]) ∅ 0.

Definition three_tasks : list TasksRow.t :=
  [TasksRow.mk 1 "Send resume" "2024-05-01 09:00:00" 0 None;
   TasksRow.mk 2 "Call recruiter" "2024-05-03 15:30:00" 0 (Some 4%Z);
   TasksRow.mk 3 "Prepare interview" "2024-05-06 11:00:00" 1 None].
Definition three_task_world : world :=
  mkWorld (set_tasks empty_database three_tasks) ∅ 5.

Definition recruiter : Contact.t :=
  Contact.mk (Some 40%Z) "Ada" "Acme" (Some "ada@acme.example") None None.
Definition resume : Document.t :=
  Document.mk None "Resume" "Resume" "v3" "2024-04-29 18:00:00" "docs/resume-v3.pdf".

Definition follow_up : Task.t :=
  Task.mk None "Follow up" "2024-05-02 10:00:00" true (Some 7%Z).

Definition application_with_status (status : string) : JobApplication.t :=
  JobApplication.mk None "Acme" "Engineer" status "2024-04-30 08:00:00" None None.

(** * What a handler does to the world *)

Ltac run_handler :=
  unfold mbind, io_bind, sqlite3_connect, cursor, mret, io_ret, execute, commit,
    close, raise;
  cbn [conns disk next_conn view foreign_keys fst snd];
  repeat (rewrite lookup_insert_eq;
          cbn [conns disk next_conn view foreign_keys fst snd andb]);
  rewrite ?insert_insert_eq, ?delete_insert_eq.

Lemma create_application_run (application : JobApplication.t) (w : world) :
  create_application application w =
    let i := new_rowid (JobApplicationsRow.id <$> job_applications (disk w)) in
    (inr (JobApplication.set_id application (Some i)),
     mkWorld
       (set_job_applications (disk w)
          (job_applications (disk w) ++ [row_of_application i application]))
       (delete (next_conn w) (conns w)) (S (next_conn w))).
Proof. unfold create_application, insert_job_application. run_handler. done. Qed.

Lemma foldl_snoc_fmap {A B : Type} (f : A → B) (l : list A) (acc : list B) :
  foldl (λ acc x, acc ++ [f x]) acc l = acc ++ (f <$> l).
Proof.
  revert acc. induction l as [|x l IH]; intros acc; simpl.
  - by rewrite app_nil_r.
  - rewrite IH. by rewrite <- app_assoc.
Qed.

Lemma get_applications_run (w : world) :
  get_applications w =
    (inr (record_of_row <$> job_applications (disk w)),
     mkWorld (disk w) (delete (next_conn w) (conns w)) (S (next_conn w))).
Proof.
  unfold get_applications, select_job_applications. run_handler.
  by rewrite (foldl_snoc_fmap record_of_row).
Qed.

Lemma create_task_run (task : Task.t) (w : world) :
  create_task task w =
    let i := new_rowid (TasksRow.id <$> tasks (disk w)) in
    (inr (Task.set_id task (Some i)),
     mkWorld (set_tasks (disk w) (tasks (disk w) ++ [row_of_task i task]))
       (delete (next_conn w) (conns w)) (S (next_conn w))).
Proof. unfold create_task, insert_task. run_handler. done. Qed.

Lemma complete_task_run (task_id : Z) (w : world) :
  complete_task task_id w =
    let d := set_tasks (disk w) (complete_row task_id <$> tasks (disk w)) in
    if decide (matching task_id (tasks (disk w)) = 0)
    then (inl not_found,
          mkWorld (disk w) (<[next_conn w := mkConnection d false]> (conns w))
            (S (next_conn w)))
    else (inr {[ "message" := "Task marked as completed" ]},
          mkWorld d (delete (next_conn w) (conns w)) (S (next_conn w))).
Proof.
  unfold complete_task, update_task_completed. run_handler.
  fold (matching task_id (tasks (disk w))).
  destruct (decide (matching task_id (tasks (disk w)) = 0)); run_handler; done.
Qed.

Lemma create_contact_run (contact : Contact.t) (w : world) :
  create_contact contact w =
    let i := new_rowid (ContactsRow.id <$> contacts (disk w)) in
    (inr (Contact.set_id contact (Some i)),
     mkWorld
       (set_contacts (disk w)
          (contacts (disk w) ++
             [ContactsRow.mk i (Contact.name contact) (Contact.company contact)
                (Contact.email contact) (Contact.phone contact) (Contact.notes contact)]))
       (delete (next_conn w) (conns w)) (S (next_conn w))).
Proof. unfold create_contact, insert_contact. run_handler. done. Qed.

Lemma create_document_run (document : Document.t) (w : world) :
  create_document document w =
    let i := new_rowid (DocumentsRow.id <$> documents (disk w)) in
    (inr (Document.set_id document (Some i)),
     mkWorld
       (set_documents (disk w)
          (documents (disk w) ++
             [DocumentsRow.mk i (Document.title document) (Document.type document)
                (Document.version document) (Document.last_updated document)
                (Document.file_path document)]))
       (delete (next_conn w) (conns w)) (S (next_conn w))).
Proof. unfold create_document, insert_document. run_handler. done. Qed.

Lemma get_application_stats_run (w : world) :
  get_application_stats w =
    (inr (build_stats (status_groups (job_applications (disk w)))),
     mkWorld (disk w) (delete (next_conn w) (conns w)) (S (next_conn w))).
Proof. unfold get_application_stats, select_status_counts. run_handler. done. Qed.

(** * Rowids *)

Lemma foldr_max_ge (i : Z) (rest : list Z) (x : Z) :
  x ∈ i :: rest → (x ≤ foldr Z.max i rest)%Z.
Proof.
  induction rest as [|y rest IH]; simpl.
  - intros ->%list_elem_of_singleton. lia.
  - rewrite !elem_of_cons. intros [->|[->|Hx]].
    + assert (i ≤ foldr Z.max i rest)%Z by (apply IH; left). lia.
    + lia.
    + assert (x ≤ foldr Z.max i rest)%Z by (apply IH; by right). lia.
Qed.

Lemma foldr_max_elem (i : Z) (rest : list Z) : foldr Z.max i rest ∈ i :: rest.
Proof.
  induction rest as [|y rest IH]; simpl; [left|].
  destruct (Z.max_spec y (foldr Z.max i rest)) as [[_ ->]|[_ ->]].
  - apply elem_of_cons in IH as [->|IH]; [left | right; by right].
  - right; left.
Qed.

Lemma new_rowid_above (ids : list Z) (x : Z) : x ∈ ids → (x < new_rowid ids)%Z.
Proof.
  destruct ids as [|i rest]; [by intros ?%elem_of_nil|].
  intros Hx%foldr_max_ge. simpl. lia.
Qed.

Lemma new_rowid_fresh (ids : list Z) : new_rowid ids ∉ ids.
Proof. intros H%new_rowid_above. lia. Qed.

Lemma new_rowid_largest (ids : list Z) (m : Z) :
  m ∈ ids → (∀ x, x ∈ ids → (x ≤ m)%Z) → new_rowid ids = (m + 1)%Z.
Proof.
  destruct ids as [|i rest]; [by intros ?%elem_of_nil|].
  intros Hm Hle. simpl.
  pose proof (foldr_max_ge _ _ _ Hm). pose proof (Hle _ (foldr_max_elem i rest)). lia.
Qed.

Lemma new_rowid_rowids (n : nat) : new_rowid (rowids n) = Z.of_nat (S n).
Proof.
  destruct n as [|n]; [done|].
  rewrite (new_rowid_largest _ (Z.of_nat (S n))); [lia| |].
  - unfold rowids. apply list_elem_of_fmap. exists (S n). split; [done|].
    apply elem_of_seq. lia.
  - unfold rowids. intros x (k & -> & Hk%elem_of_seq)%list_elem_of_fmap. lia.
Qed.

Lemma rowids_S (n : nat) : rowids (S n) = rowids n ++ [Z.of_nat (S n)].
Proof. unfold rowids. rewrite seq_S, fmap_app. done. Qed.

Lemma rowids_insert (ids : list Z) :
  ids = rowids (length ids) →
  ids ++ [new_rowid ids] = rowids (length (ids ++ [new_rowid ids])).
Proof.
  intros H. rewrite length_app. simpl. rewrite Nat.add_1_r, rowids_S.
  rewrite H at 2. rewrite new_rowid_rowids. by rewrite <- H.
Qed.

Lemma rowids_NoDup (n : nat) : NoDup (rowids n).
Proof.
  unfold rowids. apply NoDup_fmap_2; [|apply NoDup_seq].
  intros x y. lia.
Qed.

(** * Marking a task complete *)

Section update_by_id.

(** The identity bound to the [?] of the UPDATE. *)
Variable task_id : Z.
Implicit Types (r : TasksRow.t) (rows : list TasksRow.t).

Lemma matching_zero rows :
  matching task_id rows = 0 ↔ task_id ∉ TasksRow.id <$> rows.
Proof.
  unfold matching. induction rows as [|r rows IH]; simpl.
  - split; [intros _; apply not_elem_of_nil | done].
  - rewrite filter_cons, not_elem_of_cons.
    destruct (decide (TasksRow.id r = task_id)) as [Heq|Hne]; simpl.
    + split; [done | intros [Hne _]; by destruct Hne].
    + rewrite IH. split; [intros ?; split; [by intros ->|done] | tauto].
Qed.

Lemma matching_at_most_one rows :
  NoDup (TasksRow.id <$> rows) → matching task_id rows ≤ 1.
Proof.
  induction rows as [|r rows IH]; simpl; [unfold matching; simpl; lia|].
  intros [Hr Hrows]%NoDup_cons. specialize (IH Hrows).
  unfold matching in *. rewrite filter_cons.
  destruct (decide (TasksRow.id r = task_id)) as [Heq|Hne]; simpl; [|done].
  rewrite Heq in Hr. apply matching_zero in Hr. unfold matching in Hr. lia.
Qed.

Lemma matching_one rows :
  NoDup (TasksRow.id <$> rows) →
  matching task_id rows = 1 ↔ task_id ∈ TasksRow.id <$> rows.
Proof.
  intros Hnd%matching_at_most_one.
  pose proof (matching_zero rows) as Hz.
  destruct (decide (task_id ∈ TasksRow.id <$> rows)) as [Hin|Hout].
  - split; [done|]. intros _.
    destruct (decide (matching task_id rows = 0)) as [H0|]; [|lia].
    apply Hz in H0. done.
  - apply Hz in Hout. split; [lia | intros ?%Hz; [lia|done]].
Qed.

Lemma complete_row_id r :
  TasksRow.id (complete_row task_id r) = TasksRow.id r.
Proof. unfold complete_row. by destruct (decide _). Qed.

Lemma complete_row_ids rows :
  TasksRow.id <$> (complete_row task_id <$> rows) = TasksRow.id <$> rows.
Proof.
  rewrite <- list_fmap_compose. apply list_fmap_ext. intros _ r _.
  apply complete_row_id.
Qed.

Lemma complete_row_idemp r :
  complete_row task_id (complete_row task_id r) = complete_row task_id r.
Proof.
  unfold complete_row. destruct (decide (TasksRow.id r = task_id)) as [H|H]; simpl.
  - by rewrite decide_True.
  - by rewrite decide_False.
Qed.

Lemma complete_rows_idemp rows :
  complete_row task_id <$> (complete_row task_id <$> rows) =
  complete_row task_id <$> rows.
Proof.
  rewrite <- list_fmap_compose. apply list_fmap_ext. intros _ r _.
  apply complete_row_idemp.
Qed.

Lemma matching_complete_row rows :
  matching task_id (complete_row task_id <$> rows) = matching task_id rows.
Proof.
  unfold matching. induction rows as [|r rows IH]; [done|].
  rewrite fmap_cons, !filter_cons, complete_row_id.
  destruct (decide (TasksRow.id r = task_id)); simpl; by rewrite IH.
Qed.

End update_by_id.

(** The connection a handler opens on [w] has the handle [next_conn w]. *)
Lemma complete_task_found_closes (w : world) (task_id : Z) :
  task_id ∈ TasksRow.id <$> tasks (disk w) →
  (complete_task task_id w).1 = inr completed_message ∧
  conns (complete_task task_id w).2 !! next_conn w = None.
Proof.
  intros Hin. rewrite complete_task_run. cbv zeta.
  destruct (decide (matching task_id (tasks (disk w)) = 0)) as [H0|_].
  - by apply matching_zero in H0.
  - split; [done|]. simpl. apply lookup_delete_eq.
Qed.

Lemma other_handlers_close (w : world) :
  (∀ a, conns (create_application a w).2 !! next_conn w = None) ∧
  conns (get_applications w).2 !! next_conn w = None ∧
  (∀ t, conns (create_task t w).2 !! next_conn w = None) ∧
  (∀ c, conns (create_contact c w).2 !! next_conn w = None) ∧
  (∀ d, conns (create_document d w).2 !! next_conn w = None) ∧
  conns (get_application_stats w).2 !! next_conn w = None.
Proof.
  repeat split; intros;
    rewrite ?create_application_run, ?get_applications_run, ?create_task_run,
      ?create_contact_run, ?create_document_run, ?get_application_stats_run;
    apply lookup_delete_eq.
Qed.

(** C1 (the code departs from the claim). When no row of [tasks] has the
    identity, [complete_task] raises the 404 exception while the connection
    it opened is still open: the [raise] comes before [conn.close()], and
    nothing closes the connection on the way out. *)
Theorem complete_task_not_found_leaves_connection_open (w : world) (task_id : Z) :
  task_id ∉ TasksRow.id <$> tasks (disk w) →
  (complete_task task_id w).1 = inl not_found ∧
  is_Some (conns (complete_task task_id w).2 !! next_conn w).
Proof.
  intros Hout%matching_zero. rewrite complete_task_run. cbv zeta.
  rewrite decide_True by done. split; [done|]. simpl.
  rewrite lookup_insert_eq. by eexists.
Qed.

Lemma complete_task_not_found_leaves_connection_open_witness :
  (1%Z ∉ TasksRow.id <$> tasks (disk empty_world)) ∧
  (complete_task 1 empty_world).1 = inl not_found ∧
  is_Some (conns (complete_task 1 empty_world).2 !! next_conn empty_world).
Proof.
  assert (H : 1%Z ∉ TasksRow.id <$> tasks (disk empty_world))
    by (simpl; apply not_elem_of_nil).
  split; [exact H|].
  exact (complete_task_not_found_leaves_connection_open empty_world 1 H).
Defined.

Lemma complete_rows_one (task_id : Z) (rows : list TasksRow.t) (i : nat)
    (r : TasksRow.t) :
  NoDup (TasksRow.id <$> rows) → rows !! i = Some r → TasksRow.id r = task_id →
  (∀ (j : nat) (r' : TasksRow.t),
      rows !! j = Some r' → TasksRow.id r' = task_id → j = i) ∧
  complete_row task_id <$> rows =
    <[i := TasksRow.mk task_id (TasksRow.title r) (TasksRow.due_date r) 1
             (TasksRow.job_application_id r)]> rows.
Proof.
  intros Hnd Hi Hid.
  assert (Huniq : ∀ (j : nat) (r' : TasksRow.t),
            rows !! j = Some r' → TasksRow.id r' = task_id → j = i).
  { intros j r' Hj Hid'. eapply (NoDup_lookup _ j i task_id Hnd).
    - by rewrite list_lookup_fmap, Hj; simpl; rewrite Hid'.
    - by rewrite list_lookup_fmap, Hi; simpl; rewrite Hid. }
  split; [done|].
  apply list_eq. intros j. rewrite list_lookup_fmap.
  destruct (decide (i = j)) as [<-|Hne].
  - rewrite list_lookup_insert_eq by (by eapply lookup_lt_Some).
    rewrite Hi. simpl. unfold complete_row. rewrite decide_True by done.
    unfold TasksRow.set_completed. by rewrite Hid.
  - rewrite list_lookup_insert_ne by done.
    destruct (rows !! j) as [r'|] eqn:Hj; simpl; [|done].
    unfold complete_row. rewrite decide_False; [done|].
    intros Hid'. apply Hne. symmetry. by eapply Huniq.
Qed.

(** C2. With no connection open on the file, for a [task_id] in the 64-bit
    range and a [tasks] table whose identities are unique: [complete_task]
    answers with the success message exactly when the UPDATE selected one row
    (a row with that identity exists), and raises the 404 exception exactly
    when it selected none (no row has that identity).  On success the stored
    table is the earlier one with that row's [completed] set to 1; on the 404
    the stored database is what it was. *)
Theorem complete_task_result (w : world) (task_id : Z) :
  conns w = ∅ →
  int64 task_id →
  NoDup (TasksRow.id <$> tasks (disk w)) →
  let r := (complete_task task_id w).1 in
  let w' := (complete_task task_id w).2 in
  (r = inr completed_message ↔ matching task_id (tasks (disk w)) = 1) ∧
  (r = inl not_found ↔ matching task_id (tasks (disk w)) = 0) ∧
  (matching task_id (tasks (disk w)) = 1 ↔ task_id ∈ TasksRow.id <$> tasks (disk w)) ∧
  (matching task_id (tasks (disk w)) = 0 ↔ task_id ∉ TasksRow.id <$> tasks (disk w)) ∧
  (r = inl not_found → disk w' = disk w) ∧
  (r = inr completed_message →
   ∃ (i : nat) (row : TasksRow.t),
     tasks (disk w) !! i = Some row ∧ TasksRow.id row = task_id ∧
     tasks (disk w') !! i =
       Some (TasksRow.mk task_id (TasksRow.title row) (TasksRow.due_date row) 1
               (TasksRow.job_application_id row)) ∧
     tasks (disk w') =
       <[i := TasksRow.mk task_id (TasksRow.title row) (TasksRow.due_date row) 1
                (TasksRow.job_application_id row)]> (tasks (disk w))).
Proof.
  intros _ _ Hnd. cbv zeta.
  pose proof (matching_at_most_one task_id _ Hnd) as Hle.
  pose proof (matching_one task_id _ Hnd) as H1.
  pose proof (matching_zero task_id (tasks (disk w))) as H0.
  rewrite complete_task_run. cbv zeta.
  destruct (decide (matching task_id (tasks (disk w)) = 0)) as [Hz|Hz];
    cbn [fst snd disk tasks set_tasks].
  - split_and!; try done; split; try done; lia.
  - assert (Hin : task_id ∈ TasksRow.id <$> tasks (disk w)) by (apply H1; lia).
    split_and!; try done; try (split; try done; lia).
    intros _. apply list_elem_of_fmap in Hin as (row & Hid & Hrow).
    apply list_elem_of_lookup in Hrow as [i Hi].
    destruct (complete_rows_one task_id _ i row Hnd Hi (eq_sym Hid)) as (_ & Heq).
    exists i, row. split_and!; try done.
    rewrite Heq. apply list_lookup_insert_eq. by eapply lookup_lt_Some.
Qed.

Lemma int64_small (z : Z) : (- 1000 ≤ z ≤ 1000)%Z → int64 z.
Proof. unfold int64. intros ?. lia. Qed.

Lemma complete_task_result_witness :
  conns three_task_world = ∅ ∧ int64 2 ∧ int64 9 ∧
  NoDup (TasksRow.id <$> tasks (disk three_task_world)) ∧
  (complete_task 2 three_task_world).1 = inr completed_message ∧
  tasks (disk (complete_task 2 three_task_world).2) !! 1 =
    Some (TasksRow.mk 2 "Call recruiter" "2024-05-03 15:30:00" 1 (Some 4%Z)) ∧
  (complete_task 9 three_task_world).1 = inl not_found ∧
  disk (complete_task 9 three_task_world).2 = disk three_task_world.
Proof.
  assert (H : NoDup (TasksRow.id <$> tasks (disk three_task_world)))
    by (apply (bool_decide_unpack _); vm_compute; exact I).
  assert (I2 : int64 2) by (apply int64_small; lia).
  assert (I9 : int64 9) by (apply int64_small; lia).
  split; [reflexivity|]. split; [exact I2|]. split; [exact I9|]. split; [exact H|].
  pose proof (complete_task_result three_task_world 2 eq_refl I2 H)
    as (H1 & _ & _ & _ & _ & H4).
  pose proof (complete_task_result three_task_world 9 eq_refl I9 H)
    as (_ & H2 & _ & _ & H3 & _).
  cbv zeta in *.
  assert (Hok : (complete_task 2 three_task_world).1 = inr completed_message)
    by (apply H1; reflexivity).
  split; [exact Hok|].
  split.
  { destruct (H4 Hok) as (i & row & Hi & Hid & Hrow & _).
    destruct i as [|[|[|i]]]; simpl in Hi; try discriminate;
      injection Hi as <-; simpl in Hid; try discriminate.
    exact Hrow. }
  split; [apply H2; reflexivity|].
  apply H3, H2. reflexivity.
Defined.

(** C5. With no connection open on the file, marking an existing task
    complete twice: both calls answer with the success message, after each of
    them every row with that identity has [completed = 1], and the second call
    leaves the stored database as the first one made it. *)
Theorem complete_task_twice (w : world) (task_id : Z) :
  conns w = ∅ →
  int64 task_id →
  task_id ∈ TasksRow.id <$> tasks (disk w) →
  let first := complete_task task_id w in
  let second := complete_task task_id first.2 in
  first.1 = inr completed_message ∧
  second.1 = inr completed_message ∧
  conns first.2 = ∅ ∧
  task_id ∈ (TasksRow.id <$> tasks (disk first.2)) ∧
  (∀ r, r ∈ tasks (disk first.2) → TasksRow.id r = task_id → TasksRow.completed r = 1%Z) ∧
  (∀ r, r ∈ tasks (disk second.2) → TasksRow.id r = task_id → TasksRow.completed r = 1%Z) ∧
  disk second.2 = disk first.2.
Proof.
  intros Hconns _ Hin. cbv zeta.
  assert (Hm : matching task_id (tasks (disk w)) ≠ 0)
    by (intros H0%matching_zero; done).
  assert (Hall : ∀ r, r ∈ complete_row task_id <$> tasks (disk w) →
            TasksRow.id r = task_id → TasksRow.completed r = 1%Z).
  { intros r (r0 & -> & _)%list_elem_of_fmap. unfold complete_row.
    destruct (decide (TasksRow.id r0 = task_id)); simpl; [done|]. intros; done. }
  rewrite (complete_task_run task_id w). cbv zeta.
  rewrite decide_False by done. cbn [fst snd].
  rewrite complete_task_run. cbv zeta. cbn [disk tasks set_tasks conns].
  rewrite matching_complete_row, decide_False by done.
  cbn [fst snd disk tasks set_tasks].
  rewrite complete_row_ids, complete_rows_idemp, Hconns.
  split_and!; done.
Qed.

Lemma complete_task_twice_witness :
  conns three_task_world = ∅ ∧ int64 2 ∧
  (2%Z ∈ TasksRow.id <$> tasks (disk three_task_world)) ∧
  (complete_task 2 three_task_world).1 = inr completed_message ∧
  (complete_task 2 (complete_task 2 three_task_world).2).1 = inr completed_message.
Proof.
  assert (H : 2%Z ∈ TasksRow.id <$> tasks (disk three_task_world))
    by (apply (bool_decide_unpack _); vm_compute; exact I).
  assert (I2 : int64 2) by (apply int64_small; lia).
  split; [reflexivity|]. split; [exact I2|]. split; [exact H|].
  pose proof (complete_task_twice three_task_world 2 eq_refl I2 H) as (H1 & H2 & _).
  split; [exact H1 | exact H2].
Defined.

(** C6. With no connection open on the file, for an existing identity in a
    [tasks] table with unique identities, [complete_task] replaces one row,
    the one with that identity, by the row with the same [id], [title],
    [due_date] and [job_application_id] and [completed = 1]; every other slot
    of [tasks] and the three other tables are as before. *)
Theorem complete_task_frame (w : world) (task_id : Z) :
  conns w = ∅ →
  int64 task_id →
  NoDup (TasksRow.id <$> tasks (disk w)) →
  task_id ∈ TasksRow.id <$> tasks (disk w) →
  let w' := (complete_task task_id w).2 in
  (∃ (i : nat) (r : TasksRow.t),
      tasks (disk w) !! i = Some r ∧ TasksRow.id r = task_id ∧
      (∀ (j : nat) (r' : TasksRow.t),
          tasks (disk w) !! j = Some r' → TasksRow.id r' = task_id → j = i) ∧
      tasks (disk w') =
        <[i := TasksRow.mk task_id (TasksRow.title r) (TasksRow.due_date r) 1
                 (TasksRow.job_application_id r)]> (tasks (disk w)) ∧
      (∀ (j : nat), j ≠ i → tasks (disk w') !! j = tasks (disk w) !! j)) ∧
  job_applications (disk w') = job_applications (disk w) ∧
  contacts (disk w') = contacts (disk w) ∧
  documents (disk w') = documents (disk w).
Proof.
  intros _ _ Hnd Hin. cbv zeta.
  assert (Hm : matching task_id (tasks (disk w)) ≠ 0)
    by (intros H0%matching_zero; done).
  rewrite complete_task_run. cbv zeta. rewrite decide_False by done.
  cbn [fst snd disk tasks job_applications contacts documents set_tasks].
  split_and!; try done.
  apply list_elem_of_fmap in Hin as (r & Hid & Hr).
  apply list_elem_of_lookup in Hr as [i Hi].
  destruct (complete_rows_one task_id _ i r Hnd Hi (eq_sym Hid)) as (Huniq & Heq).
  exists i, r. split_and!; try done.
  intros j Hj. rewrite Heq. by apply list_lookup_insert_ne.
Qed.

Lemma complete_task_frame_witness :
  conns three_task_world = ∅ ∧ int64 2 ∧
  NoDup (TasksRow.id <$> tasks (disk three_task_world)) ∧
  (2%Z ∈ TasksRow.id <$> tasks (disk three_task_world)) ∧
  tasks (disk (complete_task 2 three_task_world).2) =
    [TasksRow.mk 1 "Send resume" "2024-05-01 09:00:00" 0 None;
     TasksRow.mk 2 "Call recruiter" "2024-05-03 15:30:00" 1 (Some 4%Z);
     TasksRow.mk 3 "Prepare interview" "2024-05-06 11:00:00" 1 None].
Proof.
  assert (Hnd : NoDup (TasksRow.id <$> tasks (disk three_task_world)))
    by (apply (bool_decide_unpack _); vm_compute; exact I).
  assert (Hin : 2%Z ∈ TasksRow.id <$> tasks (disk three_task_world))
    by (apply (bool_decide_unpack _); vm_compute; exact I).
  assert (I2 : int64 2) by (apply int64_small; lia).
  split; [reflexivity|]. split; [exact I2|]. split; [exact Hnd|]. split; [exact Hin|].
  destruct (complete_task_frame three_task_world 2 eq_refl I2 Hnd Hin)
    as ((i & r & Hi & _ & Huniq & Heq & _) & _).
  assert (Hi1 : 1 = i) by (by apply (Huniq 1 (TasksRow.mk 2 "Call recruiter"
                              "2024-05-03 15:30:00" 0 (Some 4%Z)))).
  subst i. injection Hi as <-. exact Heq.
Defined.

(** * Creating records *)

(** C7. With no connection open on the file, a task whose
    [job_application_id] is a 64-bit integer that is the identity of no row
    of [job_applications] is accepted: [create_task] does not raise, it
    returns the task with its fields as given and an identity that is not
    null and that no row of [tasks] had, and the row is stored with the
    reference as given. *)
Theorem create_task_unknown_application (w : world) (task : Task.t) (j : Z) :
  conns w = ∅ →
  int64 j →
  Task.job_application_id task = Some j →
  j ∉ JobApplicationsRow.id <$> job_applications (disk w) →
  ∃ (i : Z) (r : Task.t),
    (create_task task w).1 = inr r ∧
    Task.id r = Some i ∧
    Task.title r = Task.title task ∧
    Task.due_date r = Task.due_date task ∧
    Task.completed r = Task.completed task ∧
    Task.job_application_id r = Some j ∧
    (i ∉ TasksRow.id <$> tasks (disk w)) ∧
    tasks (disk (create_task task w).2) =
      tasks (disk w) ++
        [TasksRow.mk i (Task.title task) (Task.due_date task)
           (adapt_bool (Task.completed task)) (Some j)] ∧
    job_applications (disk (create_task task w).2) = job_applications (disk w).
Proof.
  intros _ _ Hj _. exists (new_rowid (TasksRow.id <$> tasks (disk w))).
  rewrite create_task_run. cbv zeta. cbn [fst snd]. eexists. split; [done|].
  simpl. unfold row_of_task. rewrite Hj.
  split_and!; try done. apply new_rowid_fresh.
Qed.

Lemma create_task_unknown_application_witness :
  conns three_task_world = ∅ ∧ int64 7 ∧
  Task.job_application_id follow_up = Some 7%Z ∧
  (7%Z ∉ JobApplicationsRow.id <$> job_applications (disk three_task_world)) ∧
  ∃ (i : Z) (r : Task.t),
    (create_task follow_up three_task_world).1 = inr r ∧ Task.id r = Some i ∧
    (i ∉ TasksRow.id <$> tasks (disk three_task_world)).
Proof.
  assert (H : 7%Z ∉ JobApplicationsRow.id <$> job_applications (disk three_task_world))
    by (simpl; apply not_elem_of_nil).
  assert (I7 : int64 7) by (apply int64_small; lia).
  split; [reflexivity|]. split; [exact I7|]. split; [reflexivity|]. split; [exact H|].
  pose proof (create_task_unknown_application three_task_world follow_up 7
                eq_refl I7 eq_refl H)
    as (i & r & Hr & Hi & _ & _ & _ & _ & Hfresh & _).
  exists i, r. split; [exact Hr|]. split; [exact Hi | exact Hfresh].
Defined.



Lemma record_of_row_of_application (i : Z) (a : JobApplication.t) :
  record_of_row (row_of_application i a) = JobApplication.set_id a (Some i).
Proof. done. Qed.

(** C3. With no connection open on the file, [create_application] followed
    by [get_applications]: the list holds a record with the [company],
    [position], [status], [date_applied], [url] and [notes] of the input,
    whose identity is the one [create_application] returned; that identity is
    not null and is the identity of no row the table had, hence of no other
    record of the list. *)
Theorem create_application_then_list (w : world) (application : JobApplication.t) :
  conns w = ∅ →
  ∃ (i : Z) (returned : JobApplication.t) (before after : list JobApplication.t),
    (create_application application w).1 = inr returned ∧
    JobApplication.id returned = Some i ∧
    returned = JobApplication.mk (Some i)
                 (JobApplication.company application)
                 (JobApplication.position application)
                 (JobApplication.status application)
                 (JobApplication.date_applied application)
                 (JobApplication.url application)
                 (JobApplication.notes application) ∧
    (i ∉ JobApplicationsRow.id <$> job_applications (disk w)) ∧
    (get_applications w).1 = inr before ∧
    (get_applications (create_application application w).2).1 = inr after ∧
    after = before ++ [returned] ∧
    (∀ a, a ∈ before → JobApplication.id a ≠ Some i) ∧
    ∃ a, a ∈ after ∧
      JobApplication.id a = Some i ∧
      JobApplication.company a = JobApplication.company application ∧
      JobApplication.position a = JobApplication.position application ∧
      JobApplication.status a = JobApplication.status application ∧
      JobApplication.date_applied a = JobApplication.date_applied application ∧
      JobApplication.url a = JobApplication.url application ∧
      JobApplication.notes a = JobApplication.notes application.
Proof.
  intros _.
  exists (new_rowid (JobApplicationsRow.id <$> job_applications (disk w))),
    (JobApplication.set_id application
       (Some (new_rowid (JobApplicationsRow.id <$> job_applications (disk w))))),
    (record_of_row <$> job_applications (disk w)),
    ((record_of_row <$> job_applications (disk w)) ++
       [JobApplication.set_id application
          (Some (new_rowid (JobApplicationsRow.id <$> job_applications (disk w))))]).
  rewrite create_application_run. cbv zeta. cbn [fst snd].
  rewrite !get_applications_run. cbn [fst snd disk job_applications set_job_applications].
  rewrite fmap_app. simpl. rewrite record_of_row_of_application.
  split_and!; try done.
  - apply new_rowid_fresh.
  - intros a (r & -> & Hr)%list_elem_of_fmap. simpl. intros [= Heq].
    apply (new_rowid_fresh (JobApplicationsRow.id <$> job_applications (disk w))).
    rewrite <- Heq. apply list_elem_of_fmap. by exists r.
  - exists (JobApplication.set_id application
      (Some (new_rowid (JobApplicationsRow.id <$> job_applications (disk w))))).
    split_and!; try done. apply elem_of_app. right. by apply list_elem_of_singleton.
Qed.

Lemma create_application_then_list_witness :
  conns empty_world = ∅ ∧
  ∃ (i : Z) (returned : JobApplication.t) (after : list JobApplication.t),
    (create_application (application_with_status "Applied") empty_world).1 =
      inr returned ∧
    JobApplication.id returned = Some i ∧
    (get_applications
       (create_application (application_with_status "Applied") empty_world).2).1 =
      inr after ∧
    returned ∈ after.
Proof.
  split; [reflexivity|].
  destruct (create_application_then_list empty_world
              (application_with_status "Applied") eq_refl)
    as (i & returned & before & after & H1 & H2 & _ & _ & _ & H3 & H4 & _).
  exists i, returned, after. split; [exact H1|]. split; [exact H2|].
  split; [exact H3|]. rewrite H4. apply elem_of_app. right.
  apply list_elem_of_singleton. reflexivity.
Defined.

(** * The status counts *)

Lemma count_status_cons (s : string) (r : JobApplicationsRow.t)
    (rows : list JobApplicationsRow.t) :
  count_status s (r :: rows) =
    (if decide (JobApplicationsRow.status r = s) then 1 else 0) + count_status s rows.
Proof.
  unfold count_status. rewrite filter_cons.
  by destruct (decide (JobApplicationsRow.status r = s)).
Qed.

Lemma count_status_zero (s : string) (rows : list JobApplicationsRow.t) :
  count_status s rows = 0 ↔ s ∉ JobApplicationsRow.status <$> rows.
Proof.
  induction rows as [|r rows IH].
  - split; [intros _; apply not_elem_of_nil | done].
  - rewrite count_status_cons, fmap_cons, not_elem_of_cons.
    destruct (decide (JobApplicationsRow.status r = s)) as [Heq|Hne].
    + split; [lia | intros [Hs _]; by destruct Hs].
    + simpl. rewrite IH. split; [intros ?; split; [by intros ->|done] | tauto].
Qed.

Lemma count_status_statuses (s : string) (rows : list JobApplicationsRow.t) :
  count_status s rows =
    length (filter (λ x, x = s) (JobApplicationsRow.status <$> rows)).
Proof.
  induction rows as [|r rows IH]; [done|].
  rewrite count_status_cons, fmap_cons, filter_cons.
  destruct (decide (JobApplicationsRow.status r = s)); simpl; by rewrite IH.
Qed.

Lemma status_groups_keys (rows : list JobApplicationsRow.t) :
  (status_groups rows).*1 = remove_dups (JobApplicationsRow.status <$> rows).
Proof.
  unfold status_groups. rewrite <- list_fmap_compose.
  rewrite <- (list_fmap_id (remove_dups _)) at 2. by apply list_fmap_ext.
Qed.

Lemma status_groups_values (rows : list JobApplicationsRow.t) :
  (status_groups rows).*2 =
    (λ s, count_status s rows) <$> remove_dups (JobApplicationsRow.status <$> rows).
Proof.
  unfold status_groups. rewrite <- list_fmap_compose. by apply list_fmap_ext.
Qed.

Lemma total_insert (stats : gmap string nat) (k : string) (v : nat) :
  stats !! k = None → total (<[k := v]> stats) = v + total stats.
Proof.
  intros Hk. unfold total. rewrite map_fold_insert_L; [done| |done].
  intros. lia.
Qed.

Lemma fill_lookup_other (groups : list (string * nat)) (stats : gmap string nat)
    (k : string) :
  k ∉ groups.*1 → fill_stats stats groups !! k = stats !! k.
Proof.
  revert stats. induction groups as [|[k' v'] groups IH]; intros stats; simpl; [done|].
  rewrite not_elem_of_cons. intros [Hne Hk].
  unfold fill_stats in *. simpl. rewrite IH by done. by rewrite lookup_insert_ne.
Qed.

Lemma fill_lookup_group (groups : list (string * nat)) (stats : gmap string nat)
    (k : string) (v : nat) :
  NoDup groups.*1 → (k, v) ∈ groups → fill_stats stats groups !! k = Some v.
Proof.
  revert stats. induction groups as [|[k' v'] groups IH]; intros stats; simpl.
  - by intros _ ?%elem_of_nil.
  - intros [Hk' Hnd]%NoDup_cons [[= -> ->]|Hin]%elem_of_cons; unfold fill_stats in *; simpl.
    + rewrite fill_lookup_other by done. apply lookup_insert_eq.
    + by apply IH.
Qed.

Lemma fill_total (groups : list (string * nat)) (stats : gmap string nat) :
  NoDup groups.*1 → (∀ k, k ∈ groups.*1 → stats !! k = None) →
  total (fill_stats stats groups) = sum_list groups.*2 + total stats.
Proof.
  revert stats. induction groups as [|[k v] groups IH]; intros stats; csimpl; [done|].
  intros [Hk Hnd]%NoDup_cons Hfree. unfold fill_stats in *. csimpl. rewrite IH; [|done|].
  - rewrite total_insert by (apply Hfree; left). lia.
  - intros k' Hk'. rewrite lookup_insert_ne by (intros ->; done).
    apply Hfree. by right.
Qed.

Lemma build_stats_lookup (rows : list JobApplicationsRow.t) (s : string) :
  build_stats (status_groups rows) !! s =
    if decide (count_status s rows = 0) then None else Some (count_status s rows).
Proof.
  unfold build_stats.
  destruct (decide (count_status s rows = 0)) as [H0|H0].
  - rewrite fill_lookup_other; [done|].
    rewrite status_groups_keys, elem_of_remove_dups. by apply count_status_zero.
  - apply fill_lookup_group.
    + rewrite status_groups_keys. apply NoDup_remove_dups.
    + unfold status_groups. apply list_elem_of_fmap. exists s. split; [done|].
      rewrite elem_of_remove_dups.
      destruct (decide (s ∈ JobApplicationsRow.status <$> rows)) as [|Hout]; [done|].
      by apply count_status_zero in Hout.
Qed.

Lemma build_stats_dom (rows : list JobApplicationsRow.t) :
  dom (build_stats (status_groups rows)) =
    list_to_set (JobApplicationsRow.status <$> rows).
Proof.
  apply set_eq. intros s.
  rewrite elem_of_dom, build_stats_lookup, elem_of_list_to_set.
  destruct (decide (count_status s rows = 0)) as [H0|H0].
  - split; [by intros [? ?] | by intros ?%count_status_zero].
  - split; [|by eexists]. intros _.
    destruct (decide (s ∈ JobApplicationsRow.status <$> rows)) as [|Hout]; [done|].
    by apply count_status_zero in Hout.
Qed.

Lemma sum_list_indicator (x : string) (ks : list string) :
  NoDup ks →
  sum_list ((λ s, if decide (x = s) then 1 else 0) <$> ks) =
    if decide (x ∈ ks) then 1 else 0.
Proof.
  induction ks as [|k ks IH]; [done|].
  intros [Hk Hnd]%NoDup_cons. rewrite fmap_cons. simpl. rewrite IH by done.
  destruct (decide (x = k)) as [->|Hne].
  - rewrite decide_False by done. rewrite decide_True by left. done.
  - destruct (decide (x ∈ ks)).
    + rewrite decide_True by (by right). done.
    + rewrite decide_False; [done|]. by intros [?|?]%elem_of_cons.
Qed.

Lemma sum_list_plus {A : Type} (f g : A → nat) (l : list A) :
  sum_list ((λ x, f x + g x) <$> l) = sum_list (f <$> l) + sum_list (g <$> l).
Proof. induction l as [|x l IH]; csimpl; [done|]. rewrite IH. lia. Qed.

Lemma sum_count_status (ks : list string) (rows : list JobApplicationsRow.t) :
  NoDup ks →
  (∀ r, r ∈ rows → JobApplicationsRow.status r ∈ ks) →
  sum_list ((λ s, count_status s rows) <$> ks) = length rows.
Proof.
  intros Hnd. induction rows as [|r rows IH]; intros Hin.
  - clear. induction ks as [|k ks IHks]; [done|]. csimpl. by rewrite IHks.
  - erewrite list_fmap_ext; [|intros _ s _; apply count_status_cons].
    rewrite (sum_list_plus
               (λ s, if decide (JobApplicationsRow.status r = s) then 1 else 0)
               (λ s, count_status s rows)).
    rewrite sum_list_indicator by done.
    rewrite decide_True by (apply Hin; left).
    rewrite IH; [done|]. intros r' Hr'. apply Hin. by right.
Qed.

Lemma build_stats_total (rows : list JobApplicationsRow.t) :
  total (build_stats (status_groups rows)) = length rows.
Proof.
  unfold build_stats. rewrite fill_total.
  - unfold total at 1. rewrite map_fold_empty, Nat.add_0_r, status_groups_values.
    apply sum_count_status; [apply NoDup_remove_dups|].
    intros r Hr. rewrite elem_of_remove_dups. apply list_elem_of_fmap. by exists r.
  - rewrite status_groups_keys. apply NoDup_remove_dups.
  - intros. apply lookup_empty.
Qed.

(** C9. The counts of the mapping [get_application_stats] returns add up to
    the number of rows of [job_applications]. *)
Theorem application_stats_total (w : world) :
  ∃ stats : gmap string nat,
    (get_application_stats w).1 = inr stats ∧
    total stats = length (job_applications (disk w)).
Proof.
  rewrite get_application_stats_run. eexists. split; [done|].
  apply build_stats_total.
Qed.

Lemma post_applications_statuses (apps : list JobApplication.t) (w : world) :
  JobApplicationsRow.status <$>
    job_applications (disk (serve_all w (PostApplications <$> apps))) =
  (JobApplicationsRow.status <$> job_applications (disk w)) ++
    (JobApplication.status <$> apps).
Proof.
  revert w. induction apps as [|a apps IH]; intros w.
  - by rewrite app_nil_r.
  - unfold serve_all in *. csimpl. rewrite IH, create_application_run. cbv zeta.
    cbn [snd disk job_applications set_job_applications].
    rewrite fmap_app, <- app_assoc. done.
Qed.

Lemma count_replicate (s k : string) (n : nat) :
  length (filter (λ x, x = s) (replicate n k)) = if decide (k = s) then n else 0.
Proof.
  induction n as [|n IH]; simpl; [by destruct (decide _)|].
  rewrite filter_cons. destruct (decide (k = s)); simpl; by rewrite IH.
Qed.

Lemma count_four_statuses (statuses : list string) (a b c d : nat) (s : string) :
  statuses ≡ₚ replicate a "Applied" ++ replicate b "Interview" ++
                replicate c "Offer" ++ replicate d "Rejected" →
  length (filter (λ x, x = s) statuses) =
    (if decide ("Applied" = s) then a else 0) +
    (if decide ("Interview" = s) then b else 0) +
    (if decide ("Offer" = s) then c else 0) +
    (if decide ("Rejected" = s) then d else 0).
Proof.
  intros ->. rewrite !filter_app, !length_app, !count_replicate. lia.
Qed.

Lemma put_count_lookup (k : string) (n : nat) (stats : gmap string nat) (s : string) :
  put_count k n stats !! s =
    if decide (k = s) then (if decide (n = 0) then stats !! s else Some n)
    else stats !! s.
Proof.
  unfold put_count. destruct (decide (n = 0)).
  - by destruct (decide (k = s)).
  - apply lookup_insert.
Qed.

Lemma status_mapping_lookup (a b c d : nat) (s : string) :
  status_mapping a b c d !! s =
    let n := (if decide ("Applied" = s) then a else 0) +
             (if decide ("Interview" = s) then b else 0) +
             (if decide ("Offer" = s) then c else 0) +
             (if decide ("Rejected" = s) then d else 0) in
    if decide (n = 0) then None else Some n.
Proof.
  cbv zeta. unfold status_mapping. rewrite !put_count_lookup, lookup_empty.
  destruct (decide ("Applied" = s)) as [<-|?];
    [|destruct (decide ("Interview" = s)) as [<-|?];
      [|destruct (decide ("Offer" = s)) as [<-|?];
        [|destruct (decide ("Rejected" = s)) as [<-|?]]]];
    repeat (rewrite (decide_False (P := _ = _)) by done);
    rewrite ?Nat.add_0_r, ?Nat.add_0_l;
    repeat case_decide; try done; lia.
Qed.

(** C4. The mapping [get_application_stats] returns has as keys the statuses
    that occur in [job_applications] and sends each to the number of rows
    with that status; a status of no row is not a key.  After creating, in an
    empty store and in any order, applications of which [a] are Applied, [b]
    Interview, [c] Offer and [d] Rejected, it is the mapping of those four
    counts (a status with count 0 left out). *)
Theorem application_stats_counts :
  (∀ w : world, ∃ stats : gmap string nat,
      (get_application_stats w).1 = inr stats ∧
      dom stats = list_to_set (JobApplicationsRow.status <$> job_applications (disk w)) ∧
      (∀ s : string,
          s ∉ JobApplicationsRow.status <$> job_applications (disk w) →
          stats !! s = None) ∧
      (∀ s : string,
          s ∈ JobApplicationsRow.status <$> job_applications (disk w) →
          stats !! s = Some (count_status s (job_applications (disk w))) ∧
          0 < count_status s (job_applications (disk w)))) ∧
  (∀ (apps : list JobApplication.t) (a b c d : nat),
      JobApplication.status <$> apps ≡ₚ
        replicate a "Applied" ++ replicate b "Interview" ++
        replicate c "Offer" ++ replicate d "Rejected" →
      let w := serve_all empty_world (PostApplications <$> apps) in
      (get_application_stats w).1 = inr (status_mapping a b c d) ∧
      (0 < a → 0 < b → 0 < c → 0 < d →
       (get_application_stats w).1 =
         inr (<["Applied" := a]> (<["Interview" := b]>
               (<["Offer" := c]> (<["Rejected" := d]> ∅)))))).
Proof.
  split.
  - intros w. rewrite get_application_stats_run. eexists. split; [done|].
    split; [apply build_stats_dom|]. split.
    + intros s Hs%count_status_zero. rewrite build_stats_lookup.
      by rewrite decide_True.
    + intros s Hs. rewrite build_stats_lookup.
      destruct (decide (count_status s (job_applications (disk w)) = 0)) as [H0|H0].
      * by apply count_status_zero in H0.
      * split; [done | lia].
  - intros apps a b c d Hperm. cbv zeta.
    assert (Hstats : (get_application_stats
               (serve_all empty_world (PostApplications <$> apps))).1 =
             inr (status_mapping a b c d)).
    { rewrite get_application_stats_run. cbn [fst]. f_equal.
      apply map_eq. intros s.
      rewrite build_stats_lookup, status_mapping_lookup. cbv zeta.
      rewrite count_status_statuses, post_applications_statuses. simpl.
      by rewrite (count_four_statuses _ a b c d s Hperm). }
    split; [done|]. intros Ha Hb Hc Hd. rewrite Hstats.
    unfold status_mapping, put_count.
    by rewrite !decide_False by lia.
Qed.

Lemma application_stats_counts_witness :
  (get_application_stats
     (serve_all empty_world
        (PostApplications <$>
           [application_with_status "Offer"; application_with_status "Applied";
            application_with_status "Applied"]))).1 =
    inr (status_mapping 2 0 1 0).
Proof.
  destruct application_stats_counts as [_ H].
  apply (H [application_with_status "Offer"; application_with_status "Applied";
            application_with_status "Applied"] 2 0 1 0).
  simpl. apply Permutation_cons_append.
Defined.

(** * Identities *)

Lemma assigned_ids_insert {A : Type} (id : A → Z) (rows : list A) (r : A) :
  assigned_ids id rows → id r = new_rowid (id <$> rows) →
  assigned_ids id (rows ++ [r]).
Proof.
  unfold assigned_ids. intros Hrows Hr. rewrite fmap_app. csimpl. rewrite Hr.
  rewrite <- (length_fmap id) in Hrows.
  rewrite (rowids_insert _ Hrows), !length_app, length_fmap. done.
Qed.

Lemma assigned_ids_NoDup {A : Type} (id : A → Z) (rows : list A) :
  assigned_ids id rows → NoDup (id <$> rows).
Proof. unfold assigned_ids. intros ->. apply rowids_NoDup. Qed.

Lemma identities_assigned_unique (d : database) :
  identities_assigned d → identities_unique d.
Proof.
  intros (? & ? & ? & ?). repeat split; by apply assigned_ids_NoDup.
Qed.

Lemma identities_kept_refl (d : database) : identities_kept d d.
Proof. by repeat split. Qed.

Lemma identities_kept_trans (d1 d2 d3 : database) :
  identities_kept d1 d2 → identities_kept d2 d3 → identities_kept d1 d3.
Proof.
  intros (? & ? & ? & ?) (? & ? & ? & ?). repeat split; by etrans.
Qed.

Ltac serve_cases w rq :=
  destruct rq as [a| |t|task_id|c|doc|]; cbn [serve];
  rewrite ?create_application_run, ?get_applications_run, ?create_task_run,
    ?complete_task_run, ?create_contact_run, ?create_document_run,
    ?get_application_stats_run;
  cbv zeta;
  try destruct (decide (matching task_id (tasks (disk w)) = 0));
  cbn [fst snd disk job_applications tasks contacts documents
       set_job_applications set_tasks set_contacts set_documents].

Lemma serve_identities_assigned (w : world) (rq : request) :
  identities_assigned (disk w) → identities_assigned (disk (serve w rq)).
Proof.
  intros (Ha & Ht & Hc & Hd). unfold identities_assigned.
  serve_cases w rq; split_and!; try done; try (by apply assigned_ids_insert).
  unfold assigned_ids. by rewrite complete_row_ids, length_fmap.
Qed.

Lemma serve_identities_kept (w : world) (rq : request) :
  identities_kept (disk w) (disk (serve w rq)).
Proof.
  unfold identities_kept.
  serve_cases w rq; split_and!; try done;
    rewrite ?fmap_app, ?complete_row_ids; try done; by eexists.
Qed.

Lemma serve_all_identities_assigned (rqs : list request) (w : world) :
  identities_assigned (disk w) → identities_assigned (disk (serve_all w rqs)).
Proof.
  revert w. induction rqs as [|rq rqs IH]; intros w Hw; [done|].
  unfold serve_all in *. simpl. by apply IH, serve_identities_assigned.
Qed.

Lemma serve_all_identities_kept (rqs : list request) (w : world) :
  identities_kept (disk w) (disk (serve_all w rqs)).
Proof.
  revert w. induction rqs as [|rq rqs IH]; intros w; [apply identities_kept_refl|].
  unfold serve_all in *. simpl.
  eapply identities_kept_trans; [apply serve_identities_kept | apply IH].
Qed.

(** C8. In every state reached from the empty store by create, list,
    complete and analytics requests, the identities of each table are those
    the engine assigned on insertion (1, 2, ..., n in storage order, whatever
    [id] the request carried), they are pairwise distinct, and after any
    further requests every row is still in its slot with the identity it
    had. *)
Theorem identities_assigned_unique_kept (rqs rqs' : list request) :
  let w := serve_all empty_world rqs in
  let w' := serve_all w rqs' in
  identities_assigned (disk w) ∧
  identities_unique (disk w) ∧
  identities_kept (disk w) (disk w') ∧
  (∀ (a : JobApplication.t) (i : option Z),
      disk (serve w (PostApplications (JobApplication.set_id a i))) =
      disk (serve w (PostApplications a))) ∧
  (∀ (t : Task.t) (i : option Z),
      disk (serve w (PostTasks (Task.set_id t i))) = disk (serve w (PostTasks t))).
Proof.
  cbv zeta.
  assert (H : identities_assigned (disk (serve_all empty_world rqs))).
  { apply serve_all_identities_assigned. by repeat split. }
  split_and!.
  - done.
  - by apply identities_assigned_unique.
  - apply serve_all_identities_kept.
  - intros a i. cbn [serve]. by rewrite !create_application_run.
  - intros t i. cbn [serve]. by rewrite !create_task_run.
Qed.

(** * Further properties of the handlers *)

(** ** Contacts and documents *)

(** X1. With no connection open on the file, [create_contact] returns the
    contact with its five fields as given and an identity that is not null
    and that no row of [contacts] had, whatever [id] the request carried; it
    stores one more row, with the five fields as given, after the rows that
    were there; the three other tables are as before and the connection is
    closed. *)
Theorem create_contact_stores (w : world) (contact : Contact.t) :
  conns w = ∅ →
  ∃ i : Z,
    (create_contact contact w).1 =
      inr (Contact.mk (Some i) (Contact.name contact) (Contact.company contact)
             (Contact.email contact) (Contact.phone contact) (Contact.notes contact)) ∧
    (i ∉ ContactsRow.id <$> contacts (disk w)) ∧
    contacts (disk (create_contact contact w).2) =
      contacts (disk w) ++
        [ContactsRow.mk i (Contact.name contact) (Contact.company contact)
           (Contact.email contact) (Contact.phone contact) (Contact.notes contact)] ∧
    job_applications (disk (create_contact contact w).2) = job_applications (disk w) ∧
    tasks (disk (create_contact contact w).2) = tasks (disk w) ∧
    documents (disk (create_contact contact w).2) = documents (disk w) ∧
    conns (create_contact contact w).2 = ∅ ∧
    (∀ i' : option Z,
        create_contact
          (Contact.mk i' (Contact.name contact) (Contact.company contact)
             (Contact.email contact) (Contact.phone contact) (Contact.notes contact)) w =
        create_contact contact w).
Proof.
  intros Hconns. exists (new_rowid (ContactsRow.id <$> contacts (disk w))).
  rewrite create_contact_run. cbv zeta. cbn [fst snd disk conns]. rewrite Hconns.
  split_and!; try done.
  - apply new_rowid_fresh.
  - intros i'. rewrite create_contact_run. cbv zeta. by rewrite Hconns.
Qed.

Lemma create_contact_stores_witness :
  conns three_task_world = ∅ ∧
  (create_contact recruiter three_task_world).1 =
    inr (Contact.mk (Some 1%Z) "Ada" "Acme" (Some "ada@acme.example") None None) ∧
  contacts (disk (create_contact recruiter three_task_world).2) =
    [ContactsRow.mk 1 "Ada" "Acme" (Some "ada@acme.example") None None].
Proof.
  split; [reflexivity|].
  destruct (create_contact_stores three_task_world recruiter eq_refl)
    as (i & H1 & _ & H2 & _).
  assert (Hi : i = 1%Z).
  { rewrite create_contact_run in H1. cbv in H1. by injection H1 as <-. }
  subst i. split; [exact H1 | exact H2].
Defined.

(** X2. With no connection open on the file, [create_document] returns the
    document with its five fields as given and an identity that is not null
    and that no row of [documents] had, whatever [id] the request carried; it
    stores one more row, with [title], [type], [version], [last_updated] and
    [file_path] as given, after the rows that were there; the three other
    tables are as before and the connection is closed. *)
Theorem create_document_stores (w : world) (document : Document.t) :
  conns w = ∅ →
  ∃ i : Z,
    (create_document document w).1 =
      inr (Document.mk (Some i) (Document.title document) (Document.type document)
             (Document.version document) (Document.last_updated document)
             (Document.file_path document)) ∧
    (i ∉ DocumentsRow.id <$> documents (disk w)) ∧
    documents (disk (create_document document w).2) =
      documents (disk w) ++
        [DocumentsRow.mk i (Document.title document) (Document.type document)
           (Document.version document) (Document.last_updated document)
           (Document.file_path document)] ∧
    job_applications (disk (create_document document w).2) = job_applications (disk w) ∧
    tasks (disk (create_document document w).2) = tasks (disk w) ∧
    contacts (disk (create_document document w).2) = contacts (disk w) ∧
    conns (create_document document w).2 = ∅ ∧
    (∀ i' : option Z,
        create_document
          (Document.mk i' (Document.title document) (Document.type document)
             (Document.version document) (Document.last_updated document)
             (Document.file_path document)) w =
        create_document document w).
Proof.
  intros Hconns. exists (new_rowid (DocumentsRow.id <$> documents (disk w))).
  rewrite create_document_run. cbv zeta. cbn [fst snd disk conns]. rewrite Hconns.
  split_and!; try done.
  - apply new_rowid_fresh.
  - intros i'. rewrite create_document_run. cbv zeta. by rewrite Hconns.
Qed.

Lemma create_document_stores_witness :
  conns three_task_world = ∅ ∧
  (create_document resume three_task_world).1 =
    inr (Document.mk (Some 1%Z) "Resume" "Resume" "v3" "2024-04-29 18:00:00"
           "docs/resume-v3.pdf") ∧
  documents (disk (create_document resume three_task_world).2) =
    [DocumentsRow.mk 1 "Resume" "Resume" "v3" "2024-04-29 18:00:00"
       "docs/resume-v3.pdf"].
Proof.
  split; [reflexivity|].
  destruct (create_document_stores three_task_world resume eq_refl)
    as (i & H1 & _ & H2 & _).
  assert (Hi : i = 1%Z).
  { rewrite create_document_run in H1. cbv in H1. by injection H1 as <-. }
  subst i. split; [exact H1 | exact H2].
Defined.

(** ** Completing tasks *)

Lemma complete_rows_absent (task_id : Z) (rows : list TasksRow.t) :
  task_id ∉ TasksRow.id <$> rows → complete_row task_id <$> rows = rows.
Proof.
  induction rows as [|r rows IH]; [done|].
  rewrite fmap_cons, not_elem_of_cons. intros [Hne Hout]. csimpl.
  rewrite IH by done. unfold complete_row. by rewrite decide_False.
Qed.

Lemma set_tasks_same (d : database) : set_tasks d (tasks d) = d.
Proof. by destruct d. Qed.

(** Whether it raises or not, [complete_task] leaves the stored database
    with [completed = 1] in the rows of that identity. *)
Lemma complete_task_disk (task_id : Z) (w : world) :
  disk (complete_task task_id w).2 =
    set_tasks (disk w) (complete_row task_id <$> tasks (disk w)).
Proof.
  rewrite complete_task_run. cbv zeta.
  destruct (decide (matching task_id (tasks (disk w)) = 0)) as [H0|H0]; [|done].
  cbn [snd disk]. apply matching_zero in H0.
  by rewrite complete_rows_absent, set_tasks_same.
Qed.

Lemma complete_task_answer (task_id : Z) (w : world) :
  (complete_task task_id w).1 =
    if decide (matching task_id (tasks (disk w)) = 0)
    then inl not_found else inr completed_message.
Proof.
  rewrite complete_task_run. cbv zeta. by destruct (decide _).
Qed.

Lemma complete_row_comm (a b : Z) (r : TasksRow.t) :
  complete_row a (complete_row b r) = complete_row b (complete_row a r).
Proof.
  unfold complete_row.
  destruct (decide (TasksRow.id r = a)), (decide (TasksRow.id r = b)); simpl;
    repeat (rewrite ?decide_True by done; rewrite ?decide_False by done); done.
Qed.

Lemma matching_complete_other (a b : Z) (rows : list TasksRow.t) :
  matching b (complete_row a <$> rows) = matching b rows.
Proof.
  unfold matching. induction rows as [|r rows IH]; [done|].
  rewrite fmap_cons, !filter_cons, complete_row_id.
  destruct (decide (TasksRow.id r = b)); simpl; by rewrite IH.
Qed.

(** X3. With no connection open on the file, completing two existing tasks
    does not depend on the order: in either order both calls answer with the
    success message, and the stored database after both is the same. *)
Theorem complete_task_order (w : world) (a b : Z) :
  conns w = ∅ →
  int64 a → int64 b →
  a ∈ TasksRow.id <$> tasks (disk w) →
  b ∈ TasksRow.id <$> tasks (disk w) →
  let wa := (complete_task a w).2 in
  let wb := (complete_task b w).2 in
  (complete_task a w).1 = inr completed_message ∧
  (complete_task b wa).1 = inr completed_message ∧
  (complete_task b w).1 = inr completed_message ∧
  (complete_task a wb).1 = inr completed_message ∧
  conns wa = ∅ ∧ conns wb = ∅ ∧
  (∀ r, r ∈ tasks (disk (complete_task b wa).2) →
        TasksRow.id r = a ∨ TasksRow.id r = b → TasksRow.completed r = 1%Z) ∧
  disk (complete_task b wa).2 = disk (complete_task a wb).2.
Proof.
  intros Hconns _ _ Ha Hb. cbv zeta.
  assert (Hma : matching a (tasks (disk w)) ≠ 0) by (by intros ?%matching_zero).
  assert (Hmb : matching b (tasks (disk w)) ≠ 0) by (by intros ?%matching_zero).
  rewrite !complete_task_answer, !complete_task_disk.
  cbn [tasks set_tasks]. rewrite !matching_complete_other.
  rewrite !decide_False by done.
  rewrite !complete_task_run. cbv zeta. rewrite !decide_False by done.
  cbn [snd conns]. rewrite Hconns.
  split_and!; try done.
  - intros r (r1 & -> & (r0 & -> & _)%list_elem_of_fmap)%list_elem_of_fmap.
    rewrite !complete_row_id. unfold complete_row.
    intros [Hid|Hid]; repeat (destruct (decide _); simpl in *); try done.
  - unfold set_tasks. cbn [job_applications contacts documents]. f_equal.
    rewrite <- !list_fmap_compose. apply list_fmap_ext. intros _ r _. simpl.
    apply complete_row_comm.
Qed.

Lemma complete_task_order_witness :
  conns three_task_world = ∅ ∧ int64 1 ∧ int64 2 ∧
  (1%Z ∈ TasksRow.id <$> tasks (disk three_task_world)) ∧
  (2%Z ∈ TasksRow.id <$> tasks (disk three_task_world)) ∧
  disk (complete_task 2 (complete_task 1 three_task_world).2).2 =
    disk (complete_task 1 (complete_task 2 three_task_world).2).2.
Proof.
  assert (H1 : 1%Z ∈ TasksRow.id <$> tasks (disk three_task_world))
    by (apply (bool_decide_unpack _); vm_compute; exact I).
  assert (H2 : 2%Z ∈ TasksRow.id <$> tasks (disk three_task_world))
    by (apply (bool_decide_unpack _); vm_compute; exact I).
  assert (I1 : int64 1) by (apply int64_small; lia).
  assert (I2 : int64 2) by (apply int64_small; lia).
  split; [reflexivity|]. split; [exact I1|]. split; [exact I2|].
  split; [exact H1|]. split; [exact H2|].
  destruct (complete_task_order three_task_world 1 2 eq_refl I1 I2 H1 H2)
    as (_ & _ & _ & _ & _ & _ & _ & H).
  exact H.
Defined.

(** X4. With no connection open on the file and a [job_application_id]
    that is null or a 64-bit integer, a task can be completed with the
    identity [create_task] returned for it: the create returns a record with
    a non-null identity, [complete_task] for that identity answers with the
    success message, and the table is then the one before the creation
    followed by the created row with [completed = 1]. *)
Theorem create_task_then_complete (w : world) (task : Task.t) :
  conns w = ∅ →
  int64_or_null (Task.job_application_id task) →
  ∃ (i : Z) (r : Task.t),
    (create_task task w).1 = inr r ∧
    Task.id r = Some i ∧
    conns (create_task task w).2 = ∅ ∧
    (complete_task i (create_task task w).2).1 = inr completed_message ∧
    tasks (disk (complete_task i (create_task task w).2).2) =
      tasks (disk w) ++
        [TasksRow.mk i (Task.title task) (Task.due_date task) 1
           (Task.job_application_id task)].
Proof.
  intros Hconns _.
  set (i := new_rowid (TasksRow.id <$> tasks (disk w))).
  assert (Hfresh : i ∉ TasksRow.id <$> tasks (disk w)) by apply new_rowid_fresh.
  exists i. rewrite complete_task_answer, complete_task_disk, create_task_run.
  cbv zeta. cbn [fst snd disk tasks set_tasks conns]. fold i. rewrite Hconns.
  eexists. split; [done|]. split; [done|]. split; [done|]. split.
  - rewrite decide_False; [done|]. intros H0%matching_zero. apply H0.
    rewrite fmap_app. apply elem_of_app. right. by apply list_elem_of_singleton.
  - rewrite fmap_app, complete_rows_absent by done. csimpl.
    unfold complete_row, row_of_task. cbn [TasksRow.id]. by rewrite decide_True.
Qed.

Lemma create_task_then_complete_witness :
  conns three_task_world = ∅ ∧
  int64_or_null (Task.job_application_id follow_up) ∧
  ∃ (i : Z) (r : Task.t),
    (create_task follow_up three_task_world).1 = inr r ∧ Task.id r = Some i ∧
    (complete_task i (create_task follow_up three_task_world).2).1 =
      inr completed_message.
Proof.
  assert (I7 : int64_or_null (Task.job_application_id follow_up))
    by (simpl; apply int64_small; lia).
  split; [reflexivity|]. split; [exact I7|].
  destruct (create_task_then_complete three_task_world follow_up eq_refl I7)
    as (i & r & H1 & H2 & _ & H3 & _).
  exists i, r. split; [exact H1|]. split; [exact H2 | exact H3].
Defined.

Lemma elem_of_rowids (n : nat) (z : Z) :
  z ∈ rowids n ↔ (1 ≤ z ≤ Z.of_nat n)%Z.
Proof.
  unfold rowids. rewrite list_elem_of_fmap. split.
  - intros (k & -> & Hk%elem_of_seq). lia.
  - intros Hz. exists (Z.to_nat z). split; [lia|]. apply elem_of_seq. lia.
Qed.

(** X5. After a run of requests on the empty store in which the bound
    integers were in range and no request raised, [complete_task] for a
    64-bit [task_id] answers with the success message exactly when
    [task_id] is one of 1, ..., n, n the number of rows of [tasks], and
    raises the 404 exception exactly when it is not (0, negative,
    above n). *)
Theorem complete_task_range (rqs : list request) (task_id : Z) :
  Forall bindable rqs →
  raised empty_world rqs = 0 →
  int64 task_id →
  let w := serve_all empty_world rqs in
  let n := Z.of_nat (length (tasks (disk w))) in
  ((complete_task task_id w).1 = inr completed_message ↔ (1 ≤ task_id ≤ n)%Z) ∧
  ((complete_task task_id w).1 = inl not_found ↔ (task_id < 1 ∨ n < task_id)%Z).
Proof.
  intros _ _ _. cbv zeta. set (w := serve_all empty_world rqs).
  assert (Hids : identities_assigned (disk w)).
  { apply serve_all_identities_assigned. by repeat split. }
  destruct Hids as (_ & Ht & _). unfold assigned_ids in Ht.
  pose proof (matching_zero task_id (tasks (disk w))) as Hz.
  rewrite Ht, elem_of_rowids in Hz.
  rewrite complete_task_answer.
  destruct (decide (matching task_id (tasks (disk w)) = 0)) as [H0|H0].
  - apply Hz in H0. split; split; try done; lia.
  - assert (1 ≤ task_id ≤ Z.of_nat (length (tasks (disk w))))%Z.
    { destruct (decide (1 ≤ task_id ≤ Z.of_nat (length (tasks (disk w))))%Z); [done|].
      destruct H0. by apply Hz. }
    split; split; try done; lia.
Qed.

Lemma complete_task_range_witness :
  Forall bindable [PostTasks follow_up; PutTaskComplete 1] ∧
  raised empty_world [PostTasks follow_up; PutTaskComplete 1] = 0 ∧
  int64 0 ∧
  (complete_task 0
     (serve_all empty_world [PostTasks follow_up; PutTaskComplete 1])).1 =
    inl not_found.
Proof.
  assert (Hb : Forall bindable [PostTasks follow_up; PutTaskComplete 1]).
  { repeat constructor; simpl; apply int64_small; lia. }
  assert (I0 : int64 0) by (apply int64_small; lia).
  split; [exact Hb|]. split; [vm_compute; reflexivity|]. split; [exact I0|].
  apply (complete_task_range [PostTasks follow_up; PutTaskComplete 1] 0 Hb
           ltac:(vm_compute; reflexivity) I0).
  left. lia.
Defined.

(** ** What a request does to each table *)

Lemma serve_job_applications (w : world) (rq : request) :
  job_applications (disk (serve w rq)) =
    match rq with
    | PostApplications a =>
        job_applications (disk w) ++
          [row_of_application
             (new_rowid (JobApplicationsRow.id <$> job_applications (disk w))) a]
    | _ => job_applications (disk w)
    end.
Proof.
  destruct rq; cbn [serve];
    rewrite ?create_application_run, ?get_applications_run, ?create_task_run,
      ?complete_task_disk, ?create_contact_run, ?create_document_run,
      ?get_application_stats_run; done.
Qed.

Lemma serve_tasks (w : world) (rq : request) :
  tasks (disk (serve w rq)) =
    match rq with
    | PostTasks t =>
        tasks (disk w) ++ [row_of_task (new_rowid (TasksRow.id <$> tasks (disk w))) t]
    | PutTaskComplete task_id => complete_row task_id <$> tasks (disk w)
    | _ => tasks (disk w)
    end.
Proof.
  destruct rq; cbn [serve];
    rewrite ?create_application_run, ?get_applications_run, ?create_task_run,
      ?complete_task_disk, ?create_contact_run, ?create_document_run,
      ?get_application_stats_run; done.
Qed.

Lemma serve_contacts_documents (w : world) (rq : request) :
  contacts (disk w) `prefix_of` contacts (disk (serve w rq)) ∧
  documents (disk w) `prefix_of` documents (disk (serve w rq)).
Proof.
  destruct rq; cbn [serve];
    rewrite ?create_application_run, ?get_applications_run, ?create_task_run,
      ?complete_task_disk, ?create_contact_run, ?create_document_run,
      ?get_application_stats_run; cbv zeta;
    cbn [snd disk contacts documents set_job_applications set_tasks set_contacts
         set_documents];
    split; try done; by eexists.
Qed.

(** ** The list endpoint over a run *)

Lemma serve_all_job_applications (rqs : list request) (w : world) :
  identities_assigned (disk w) →
  job_applications (disk (serve_all w rqs)) =
    job_applications (disk w) ++
      imap (λ k a, row_of_application
                     (Z.of_nat (S (length (job_applications (disk w)) + k))) a)
           (posted_applications rqs).
Proof.
  revert w. induction rqs as [|rq rqs IH]; intros w Hw.
  - simpl. by rewrite app_nil_r.
  - unfold serve_all in *. cbn [foldl].
    rewrite (IH _ (serve_identities_assigned w rq Hw)), serve_job_applications.
    destruct rq as [a| | | | | |]; try done.
    unfold posted_applications. cbn [omap list_omap]. fold (posted_applications rqs).
    rewrite imap_cons, <- app_assoc, length_app, Nat.add_0_r. cbn [length app].
    destruct Hw as (Ha & _). unfold assigned_ids in Ha.
    rewrite Ha, new_rowid_rowids. f_equal. f_equal.
    apply imap_ext. intros k x _. simpl. do 2 f_equal. lia.
Qed.

(** X6. After a run of requests on the empty store in which the bound
    integers were in range and no request raised, [get_applications] returns
    the applications the run posted, in the order they were posted, the k-th
    with the identity k; requests of the other kinds in between change
    nothing of it. *)
Theorem get_applications_after_run (rqs : list request) :
  Forall bindable rqs →
  raised empty_world rqs = 0 →
  (get_applications (serve_all empty_world rqs)).1 =
    inr (numbered (posted_applications rqs)).
Proof.
  intros _ _. rewrite get_applications_run. cbn [fst]. f_equal.
  rewrite serve_all_job_applications by (by repeat split).
  cbn [empty_world disk empty_database job_applications length app].
  unfold numbered. rewrite fmap_imap. apply imap_ext. by intros k a _.
Qed.

Lemma get_applications_after_run_witness :
  Forall bindable
    [PostApplications (application_with_status "Applied"); PostTasks follow_up;
     PostApplications (application_with_status "Offer")] ∧
  raised empty_world
    [PostApplications (application_with_status "Applied"); PostTasks follow_up;
     PostApplications (application_with_status "Offer")] = 0 ∧
  (get_applications
     (serve_all empty_world
        [PostApplications (application_with_status "Applied"); PostTasks follow_up;
         PostApplications (application_with_status "Offer")])).1 =
    inr [JobApplication.mk (Some 1%Z) "Acme" "Engineer" "Applied"
           "2024-04-30 08:00:00" None None;
         JobApplication.mk (Some 2%Z) "Acme" "Engineer" "Offer"
           "2024-04-30 08:00:00" None None].
Proof.
  assert (Hb : Forall bindable
    [PostApplications (application_with_status "Applied"); PostTasks follow_up;
     PostApplications (application_with_status "Offer")]).
  { repeat constructor; simpl; apply int64_small; lia. }
  split; [exact Hb|]. split; [vm_compute; reflexivity|].
  exact (get_applications_after_run _ Hb ltac:(vm_compute; reflexivity)).
Defined.

(** X7. Only a posted application changes what the two GET endpoints
    return: after a request of any other kind, [get_applications] and
    [get_application_stats] answer as they did before it. *)
Theorem reads_change_only_by_post_applications (w : world) (rq : request) :
  (∀ a, rq ≠ PostApplications a) →
  (get_applications (serve w rq)).1 = (get_applications w).1 ∧
  (get_application_stats (serve w rq)).1 = (get_application_stats w).1.
Proof.
  intros Hrq. rewrite !get_applications_run, !get_application_stats_run.
  cbn [fst]. rewrite serve_job_applications.
  destruct rq as [a| | | | | |]; try done. by destruct (Hrq a).
Qed.

Lemma reads_change_only_by_post_applications_witness :
  (∀ a, PostTasks follow_up ≠ PostApplications a) ∧
  (get_applications (serve one_task_world (PostTasks follow_up))).1 =
    (get_applications one_task_world).1.
Proof.
  assert (H : ∀ a, PostTasks follow_up ≠ PostApplications a) by (intros a; discriminate).
  split; [exact H|].
  exact (proj1 (reads_change_only_by_post_applications one_task_world
                  (PostTasks follow_up) H)).
Defined.

Lemma count_status_snoc (s : string) (rows : list JobApplicationsRow.t)
    (r : JobApplicationsRow.t) :
  count_status s (rows ++ [r]) =
    count_status s rows + (if decide (JobApplicationsRow.status r = s) then 1 else 0).
Proof.
  unfold count_status. rewrite filter_app, length_app. f_equal.
  rewrite filter_cons. by destruct (decide _).
Qed.

(** X8. With no connection open on the file, posting an application adds
    one to the count of its status in the mapping [get_application_stats]
    returns (a status that was no key gets the count 1) and leaves every
    other entry as it was. *)
Theorem create_application_bumps_status (w : world) (application : JobApplication.t) :
  conns w = ∅ →
  ∃ stats : gmap string nat,
    (get_application_stats w).1 = inr stats ∧
    (get_application_stats (create_application application w).2).1 =
      inr (<[JobApplication.status application :=
               S (default 0 (stats !! JobApplication.status application))]> stats).
Proof.
  intros _.
  rewrite !get_application_stats_run, create_application_run. cbv zeta.
  cbn [fst snd disk job_applications set_job_applications].
  eexists. split; [done|]. f_equal. apply map_eq. intros s.
  rewrite lookup_insert, !build_stats_lookup, count_status_snoc.
  cbn [row_of_application JobApplicationsRow.status].
  destruct (decide (JobApplication.status application = s)) as [->|Hne].
  - destruct (decide (count_status s (job_applications (disk w)) = 0)) as [->|H0];
      simpl; [done|].
    rewrite decide_False by lia. f_equal. lia.
  - rewrite Nat.add_0_r. done.
Qed.

Lemma create_application_bumps_status_witness :
  conns empty_world = ∅ ∧
  (get_application_stats
     (create_application (application_with_status "Interview") empty_world).2).1 =
    inr (<["Interview" := 1]> ∅).
Proof.
  split; [reflexivity|].
  destruct (create_application_bumps_status empty_world
              (application_with_status "Interview") eq_refl) as (stats & H1 & H2).
  rewrite get_application_stats_run in H1. injection H1 as <-. exact H2.
Defined.

(** ** Connections over a run *)

Lemma raises_complete_only (w : world) (rq : request) :
  raises w rq = true ↔
  ∃ task_id, rq = PutTaskComplete task_id ∧ task_id ∉ TasksRow.id <$> tasks (disk w).
Proof.
  destruct rq as [a| |t|task_id|c|doc|]; cbn [raises];
    rewrite ?create_application_run, ?get_applications_run, ?create_task_run,
      ?complete_task_answer, ?create_contact_run, ?create_document_run,
      ?get_application_stats_run; cbv zeta; cbn [fst];
    try (split; [done | by intros (? & ? & _)]).
  destruct (decide (matching task_id (tasks (disk w)) = 0)) as [H0|H0].
  - split; [|done]. intros _. exists task_id. split; [done|]. by apply matching_zero.
  - split; [done|]. intros (? & [= <-] & Hout). destruct H0. by apply matching_zero.
Qed.

Lemma serve_connections (w : world) (rq : request) :
  (∀ h c, conns w !! h = Some c → h < next_conn w) →
  next_conn (serve w rq) = S (next_conn w) ∧
  size (conns (serve w rq)) = size (conns w) + (if raises w rq then 1 else 0) ∧
  (∀ h c, conns (serve w rq) !! h = Some c → h < next_conn (serve w rq)).
Proof.
  intros Hbelow.
  assert (Hfree : conns w !! next_conn w = None).
  { destruct (conns w !! next_conn w) as [c|] eqn:Hc; [|done].
    apply Hbelow in Hc. lia. }
  destruct rq as [a| |t|task_id|c|doc|]; cbn [serve raises];
    rewrite ?create_application_run, ?get_applications_run, ?create_task_run,
      ?complete_task_run, ?create_contact_run, ?create_document_run,
      ?get_application_stats_run; cbv zeta;
    try destruct (decide (matching task_id (tasks (disk w)) = 0));
    cbn [fst snd conns next_conn];
    rewrite ?delete_id by done;
    (split; [done|]); (split; [|]);
    try (rewrite map_size_insert_None by done; lia);
    try lia.
  all: intros h c'; rewrite ?lookup_insert; try case_decide; subst;
    try (intros ?%Hbelow; lia); intros; lia.
Qed.

Lemma serve_all_connections (rqs : list request) (w : world) :
  (∀ h c, conns w !! h = Some c → h < next_conn w) →
  next_conn (serve_all w rqs) = next_conn w + length rqs ∧
  size (conns (serve_all w rqs)) = size (conns w) + raised w rqs.
Proof.
  revert w. induction rqs as [|rq rqs IH]; intros w Hw.
  - simpl. lia.
  - destruct (serve_connections w rq Hw) as (Hn & Hs & Hw').
    unfold serve_all in *. cbn [foldl raised length].
    destruct (IH _ Hw') as (IHn & IHs). rewrite IHn, IHs, Hn, Hs. lia.
Qed.

(** X9. After a run of requests on the empty store in which the bound
    integers were in range and no request raised, no connection is open and
    each request opened one.  The next request, its integers in range, raises
    only as [complete_task] for an identity without a row, and then leaves
    one connection open; if it does not raise it leaves none. *)
Theorem open_connections_after_run (rqs : list request) :
  Forall bindable rqs →
  raised empty_world rqs = 0 →
  let w := serve_all empty_world rqs in
  conns w = ∅ ∧
  next_conn w = length rqs ∧
  (∀ rq : request,
      bindable rq →
      (raises w rq = true ↔
       ∃ task_id, rq = PutTaskComplete task_id ∧
                  task_id ∉ TasksRow.id <$> tasks (disk w)) ∧
      (raises w rq = false → conns (serve w rq) = ∅) ∧
      (raises w rq = true → size (conns (serve w rq)) = 1)).
Proof.
  intros _ Hquiet. cbv zeta.
  destruct (serve_all_connections rqs empty_world) as (Hn & Hs).
  { intros h c. cbn [empty_world conns]. by rewrite lookup_empty. }
  rewrite Hquiet in Hs. cbn [empty_world conns next_conn] in Hn, Hs.
  rewrite map_size_empty in Hs. apply map_size_empty_inv in Hs.
  split; [done|]. split; [done|]. intros rq _.
  destruct (serve_connections (serve_all empty_world rqs) rq) as (_ & Hsize & _).
  { intros h c. by rewrite Hs, lookup_empty. }
  rewrite Hs, map_size_empty in Hsize.
  split; [apply raises_complete_only|]. split.
  - intros Hr. rewrite Hr in Hsize. by apply map_size_empty_inv.
  - intros Hr. by rewrite Hr in Hsize.
Qed.

Lemma open_connections_after_run_witness :
  Forall bindable [PostTasks follow_up; GetApplications] ∧
  raised empty_world [PostTasks follow_up; GetApplications] = 0 ∧
  conns (serve_all empty_world [PostTasks follow_up; GetApplications]) = ∅.
Proof.
  assert (Hb : Forall bindable [PostTasks follow_up; GetApplications]).
  { repeat constructor; simpl; apply int64_small; lia. }
  split; [exact Hb|]. split; [vm_compute; reflexivity|].
  exact (proj1 (open_connections_after_run _ Hb ltac:(vm_compute; reflexivity))).
Defined.

(** ** Rows over a run *)

Lemma task_row_later_refl (r : TasksRow.t) : task_row_later r r.
Proof. unfold task_row_later. tauto. Qed.

Lemma task_row_later_trans (r1 r2 r3 : TasksRow.t) :
  task_row_later r1 r2 → task_row_later r2 r3 → task_row_later r1 r3.
Proof.
  unfold task_row_later.
  intros (-> & -> & -> & -> & H12) (-> & -> & -> & -> & H23).
  split_and!; try done. destruct H12 as [<-|H12], H23 as [H23|H23]; auto.
  right. congruence.
Qed.

Lemma task_row_later_complete (task_id : Z) (r : TasksRow.t) :
  task_row_later r (complete_row task_id r).
Proof.
  unfold task_row_later, complete_row.
  destruct (decide (TasksRow.id r = task_id)); simpl; tauto.
Qed.

Lemma serve_task_row (w : world) (rq : request) (i : nat) (r : TasksRow.t) :
  tasks (disk w) !! i = Some r →
  ∃ r', tasks (disk (serve w rq)) !! i = Some r' ∧ task_row_later r r'.
Proof.
  intros Hi. rewrite serve_tasks.
  destruct rq as [a| |t|task_id|c|doc|];
    try (exists r; split; [done | apply task_row_later_refl]).
  - exists r. split; [by apply lookup_app_l_Some | apply task_row_later_refl].
  - exists (complete_row task_id r). split; [|apply task_row_later_complete].
    by rewrite list_lookup_fmap, Hi.
Qed.

(** X10. Whatever requests follow, a row of [tasks] stays in its slot with
    its [id], [title], [due_date] and [job_application_id], and its
    [completed] is what it was or 1; a row with [completed = 1] is never
    changed again: no request resets a completed task or removes a task. *)
Theorem task_rows_after_run (w : world) (rqs : list request) (i : nat)
    (r : TasksRow.t) :
  tasks (disk w) !! i = Some r →
  ∃ r', tasks (disk (serve_all w rqs)) !! i = Some r' ∧
        task_row_later r r' ∧
        (TasksRow.completed r = 1%Z → r' = r).
Proof.
  intros Hi.
  assert (H : ∃ r', tasks (disk (serve_all w rqs)) !! i = Some r' ∧
                    task_row_later r r').
  { revert w r Hi. induction rqs as [|rq rqs IH]; intros w r Hi.
    - exists r. split; [done | apply task_row_later_refl].
    - destruct (serve_task_row w rq i r Hi) as (r1 & Hi1 & H1).
      destruct (IH _ _ Hi1) as (r2 & Hi2 & H2).
      exists r2. split; [done|]. by eapply task_row_later_trans. }
  destruct H as (r' & Hi' & Hlater). exists r'. split_and!; try done.
  intros Hc. destruct Hlater as (H1 & H2 & H3 & H4 & H5).
  destruct r, r'. simpl in *. subst. f_equal. by destruct H5.
Qed.

Lemma task_rows_after_run_witness :
  tasks (disk one_task_world) !! 0 = Some one_task ∧
  ∃ r', tasks (disk (serve_all one_task_world
                       [PutTaskComplete 1; PostTasks follow_up])) !! 0 = Some r' ∧
        task_row_later one_task r'.
Proof.
  split; [reflexivity|].
  destruct (task_rows_after_run one_task_world
              [PutTaskComplete 1; PostTasks follow_up] 0 one_task eq_refl)
    as (r' & H1 & H2 & _).
  exists r'. split; [exact H1 | exact H2].
Defined.

(** X11. The tables without an update statement only grow at the end:
    whatever requests follow, the rows of [job_applications], [contacts] and
    [documents] are still there, unchanged and in their slots, and [tasks]
    has lost no row. *)
Theorem tables_append_only (w : world) (rqs : list request) :
  job_applications (disk w) `prefix_of` job_applications (disk (serve_all w rqs)) ∧
  contacts (disk w) `prefix_of` contacts (disk (serve_all w rqs)) ∧
  documents (disk w) `prefix_of` documents (disk (serve_all w rqs)) ∧
  length (tasks (disk w)) ≤ length (tasks (disk (serve_all w rqs))).
Proof.
  revert w. induction rqs as [|rq rqs IH]; intros w; [done|].
  unfold serve_all in *. cbn [foldl].
  destruct (IH (serve w rq)) as (Ha & Hc & Hd & Ht).
  destruct (serve_contacts_documents w rq) as (Hc1 & Hd1).
  split_and!.
  - etrans; [|exact Ha]. rewrite serve_job_applications.
    destruct rq; try done. by eexists.
  - by etrans.
  - by etrans.
  - etrans; [|exact Ht]. rewrite serve_tasks.
    destruct rq; rewrite ?length_app, ?length_fmap; lia.
Qed.

(** X12. In every store reached from the empty one the [completed] column
    holds 0 or 1 in every row. *)
Theorem completed_is_boolean (rqs : list request) :
  Forall (λ r, TasksRow.completed r = 0%Z ∨ TasksRow.completed r = 1%Z)
         (tasks (disk (serve_all empty_world rqs))).
Proof.
  assert (H : ∀ w,
    Forall (λ r, TasksRow.completed r = 0%Z ∨ TasksRow.completed r = 1%Z)
           (tasks (disk w)) →
    Forall (λ r, TasksRow.completed r = 0%Z ∨ TasksRow.completed r = 1%Z)
           (tasks (disk (serve_all w rqs)))).
  { induction rqs as [|rq rqs IH]; intros w Hw; [done|].
    unfold serve_all in *. cbn [foldl]. apply IH. rewrite serve_tasks.
    destruct rq as [a| |t|task_id|c|doc|]; try done.
    - apply Forall_app. split; [done|]. apply Forall_singleton.
      unfold row_of_task. simpl. destruct (Task.completed t); auto.
    - apply Forall_fmap. eapply Forall_impl; [exact Hw|].
      intros r Hr. unfold complete_row. simpl.
      destruct (decide (TasksRow.id r = task_id)); simpl; auto. }
  apply H. constructor.
Qed.

(** X13. After a run of requests on the empty store in which the bound
    integers were in range and no request raised, every create returns the
    record with the number of rows of its table plus one as the identity
    (for a task, with a [job_application_id] that is null or a 64-bit
    integer): identities are given out consecutively from 1, per table. *)
Theorem creates_number_consecutively (rqs : list request) :
  Forall bindable rqs →
  raised empty_world rqs = 0 →
  let w := serve_all empty_world rqs in
  (∀ a, (create_application a w).1 =
          inr (JobApplication.mk
                 (Some (Z.of_nat (S (length (job_applications (disk w))))))
                 (JobApplication.company a) (JobApplication.position a)
                 (JobApplication.status a) (JobApplication.date_applied a)
                 (JobApplication.url a) (JobApplication.notes a))) ∧
  (∀ t, int64_or_null (Task.job_application_id t) →
        (create_task t w).1 =
          inr (Task.mk (Some (Z.of_nat (S (length (tasks (disk w))))))
                 (Task.title t) (Task.due_date t) (Task.completed t)
                 (Task.job_application_id t))) ∧
  (∀ c, (create_contact c w).1 =
          inr (Contact.mk (Some (Z.of_nat (S (length (contacts (disk w))))))
                 (Contact.name c) (Contact.company c) (Contact.email c)
                 (Contact.phone c) (Contact.notes c))) ∧
  (∀ d, (create_document d w).1 =
          inr (Document.mk (Some (Z.of_nat (S (length (documents (disk w))))))
                 (Document.title d) (Document.type d) (Document.version d)
                 (Document.last_updated d) (Document.file_path d))).
Proof.
  intros _ _. cbv zeta. set (w := serve_all empty_world rqs).
  assert (Hids : identities_assigned (disk w)).
  { apply serve_all_identities_assigned. by repeat split. }
  destruct Hids as (Ha & Ht & Hc & Hd). unfold assigned_ids in *.
  split_and!; intros x; try intros _;
    rewrite ?create_application_run, ?create_task_run, ?create_contact_run,
      ?create_document_run; cbv zeta; cbn [fst];
    rewrite ?Ha, ?Ht, ?Hc, ?Hd, new_rowid_rowids; done.
Qed.

Lemma creates_number_consecutively_witness :
  Forall bindable [PostTasks follow_up; PostContacts recruiter] ∧
  raised empty_world [PostTasks follow_up; PostContacts recruiter] = 0 ∧
  (create_task follow_up
     (serve_all empty_world [PostTasks follow_up; PostContacts recruiter])).1 =
    inr (Task.mk (Some 2%Z) "Follow up" "2024-05-02 10:00:00" true (Some 7%Z)).
Proof.
  assert (Hb : Forall bindable [PostTasks follow_up; PostContacts recruiter]).
  { repeat constructor; simpl; apply int64_small; lia. }
  assert (I7 : int64_or_null (Task.job_application_id follow_up))
    by (simpl; apply int64_small; lia).
  split; [exact Hb|]. split; [vm_compute; reflexivity|].
  destruct (creates_number_consecutively _ Hb ltac:(vm_compute; reflexivity))
    as (_ & H & _).
  exact (H follow_up I7).
Defined.

(** ** Frames and the empty store *)

(** X14. A request touches at most its own table: posting an application
    leaves [tasks], [contacts] and [documents] as they were, posting or
    completing a task leaves the three other tables, posting a contact or a
    document likewise, and the two GET requests leave the whole stored
    database as it was. *)
Theorem serve_touches_own_table (w : world) (rq : request) :
  match rq with
  | PostApplications _ =>
      tasks (disk (serve w rq)) = tasks (disk w) ∧
      contacts (disk (serve w rq)) = contacts (disk w) ∧
      documents (disk (serve w rq)) = documents (disk w)
  | PostTasks _ | PutTaskComplete _ =>
      job_applications (disk (serve w rq)) = job_applications (disk w) ∧
      contacts (disk (serve w rq)) = contacts (disk w) ∧
      documents (disk (serve w rq)) = documents (disk w)
  | PostContacts _ =>
      job_applications (disk (serve w rq)) = job_applications (disk w) ∧
      tasks (disk (serve w rq)) = tasks (disk w) ∧
      documents (disk (serve w rq)) = documents (disk w)
  | PostDocuments _ =>
      job_applications (disk (serve w rq)) = job_applications (disk w) ∧
      tasks (disk (serve w rq)) = tasks (disk w) ∧
      contacts (disk (serve w rq)) = contacts (disk w)
  | GetApplications | GetApplicationStatus => disk (serve w rq) = disk w
  end.
Proof.
  destruct rq; cbn [serve];
    rewrite ?create_application_run, ?get_applications_run, ?create_task_run,
      ?complete_task_disk, ?create_contact_run, ?create_document_run,
      ?get_application_stats_run; done.
Qed.

(** X15. The two GET endpoints answer with the empty list and the empty
    mapping exactly when [job_applications] has no row; neither raises on an
    empty table. *)
Theorem reads_of_empty_table (w : world) :
  ((get_applications w).1 = inr [] ↔ job_applications (disk w) = []) ∧
  ((get_application_stats w).1 = inr ∅ ↔ job_applications (disk w) = []).
Proof.
  rewrite get_applications_run, get_application_stats_run. cbn [fst]. split; split.
  - intros [= H]. by apply fmap_nil_inv in H.
  - by intros ->.
  - intros [= H]. pose proof (build_stats_total (job_applications (disk w))) as Ht.
    rewrite H in Ht. unfold total in Ht. rewrite map_fold_empty in Ht.
    symmetry in Ht. by apply length_zero_iff_nil in Ht.
  - by intros ->.
Qed.
